(** * The Infinite Library: archive filtering and the persisted settings store

    A shallow embedding of [src/main.ts].

    Conventions of the embedding.
    - A JavaScript string is modelled by its Latin-1 fragment: a [string] of
      8-bit code units.  [toLowerCase] and [trim] below are the ECMAScript
      operations restricted to that fragment.
    - A [number] that holds an instant ([timestamp], [Date.now()]) is an
      integer count of milliseconds, a [Z]; a [number] that holds a weight or a
      vector component is the rational its decimal literal denotes, a [Q].
      NaN and the infinities are outside the data model.
    - An object used as a key-value map (the settings) is a [gmap string json];
      the numbers inside such values, which the store never inspects, are
      integers.
*)

From Stdlib Require Import ZArith QArith List Bool Ascii String Sorted Permutation.
From stdpp Require Import base option gmap strings list fin_maps pretty.

Set Warnings "-register-all".

Import ListNotations.
Local Open Scope string_scope.
Local Open Scope Z_scope.

(** ** ECMAScript string built-ins used by the source *)

Module JsString.

(** Code units that ECMAScript counts as WhiteSpace or LineTerminator, in the
    Latin-1 range: TAB, LF, VT, FF, CR, SP and NBSP. *)
Definition is_space (c : ascii) : bool :=
  let n := nat_of_ascii c in
  ((9 <=? n)%nat && (n <=? 13)%nat) || (n =? 32)%nat || (n =? 160)%nat.

Fixpoint trimStart (s : string) : string :=
  match s with
  | EmptyString => EmptyString
  | String c s' => if is_space c then trimStart s' else s
  end.

(** [trimEnd] walks to the end and drops the spaces on the way back. *)
Fixpoint trimEnd (s : string) : string :=
  match s with
  | EmptyString => EmptyString
  | String c s' =>
      match trimEnd s' with
      | EmptyString => if is_space c then EmptyString else String c EmptyString
      | t => String c t
      end
  end.

(** [String.prototype.trim]. *)
Definition trim (s : string) : string := trimEnd (trimStart s).

(** Lower-casing of one Latin-1 code unit: A-Z, and U+00C0-U+00DE but the
    multiplication sign U+00D7, move up by 32. *)
Definition lower_char (c : ascii) : ascii :=
  let n := nat_of_ascii c in
  if ((65 <=? n)%nat && (n <=? 90)%nat)
     || ((192 <=? n)%nat && (n <=? 222)%nat && negb (n =? 215)%nat)
  then ascii_of_nat (n + 32) else c.

(** [String.prototype.toLowerCase]. *)
Fixpoint toLowerCase (s : string) : string :=
  match s with
  | EmptyString => EmptyString
  | String c s' => String (lower_char c) (toLowerCase s')
  end.

(** [s.startsWith(p)]. *)
Fixpoint startsWith (s p : string) : bool :=
  match p, s with
  | EmptyString, _ => true
  | String _ _, EmptyString => false
  | String a p', String b s' => if Ascii.eqb a b then startsWith s' p' else false
  end.

(** [hay.includes(needle)]: some suffix of [hay] starts with [needle]. *)
Fixpoint includes (hay needle : string) : bool :=
  startsWith hay needle ||
  match hay with
  | EmptyString => false
  | String _ hay' => includes hay' needle
  end.

(** [parts.join(sep)]. *)
Fixpoint join (sep : string) (parts : list string) : string :=
  match parts with
  | [] => EmptyString
  | [p] => p
  | p :: rest => p ++ sep ++ join sep rest
  end.

(** The truthiness of a string: [!s] is true exactly for the empty string. *)
Definition is_empty (s : string) : bool :=
  match s with EmptyString => true | _ => false end.

(** [needle] occurs in [hay] as a contiguous run of code units. *)
Definition Substring (needle hay : string) : Prop :=
  exists pre post : string, hay = pre ++ needle ++ post.

End JsString.

(** ** [Array.prototype] built-ins used by the source *)

Module JsArray.
Section Methods.
Context {A : Type}.

(** [arr.find(p)]: the first element that satisfies [p], or [undefined]. *)
Fixpoint find (p : A -> bool) (arr : list A) : option A :=
  match arr with
  | [] => None
  | x :: rest => if p x then Some x else find p rest
  end.

(** [arr.some(p)]. *)
Fixpoint some (p : A -> bool) (arr : list A) : bool :=
  match arr with
  | [] => false
  | x :: rest => p x || some p rest
  end.

(** [arr.filter(p)]: the elements that satisfy [p], in their order. *)
Fixpoint filter (p : A -> bool) (arr : list A) : list A :=
  match arr with
  | [] => []
  | x :: rest => if p x then x :: filter p rest else filter p rest
  end.

(** [arr.sort(cmp)].  ECMAScript requires the sort to be stable, so for a
    consistent comparator the result is the same whatever algorithm the
    engine runs; it is computed here by stable insertion.  [cmp a b <= 0]
    keeps [a], which came first, in front of [b]. *)
Fixpoint insert (cmp : A -> A -> Z) (x : A) (sorted : list A) : list A :=
  match sorted with
  | [] => [x]
  | y :: rest =>
      if cmp x y <=? 0 then x :: y :: rest else y :: insert cmp x rest
  end.

Fixpoint sort (cmp : A -> A -> Z) (arr : list A) : list A :=
  match arr with
  | [] => []
  | x :: rest => insert cmp x (sort cmp rest)
  end.
End Methods.
End JsArray.

(** ** Data model (the interfaces of [main.ts]) *)

Module Agent.
Record t : Type := mk {
  id : string;
  name : string;
  beliefVector : list Q;
  styleVector : list Q;
  memory : list string;
  faction : string;
  credibility : Q;
}.
End Agent.

Module DocumentRecord.
Record t : Type := mk {
  id : string;
  title : string;
  text : string;
  authorId : string;
  timestamp : Z;
  embedding : list Q;
  references : list string;
  factionTag : string;
  canonWeight : Q;
}.
End DocumentRecord.

Record LibraryViewState : Type := mkView {
  documents : list DocumentRecord.t;
  agents : list Agent.t;
  activeDocumentId : option string;
  searchTerm : string;
  factionFilter : string;
  showCanonOnly : bool;
}.

(** [x < y] on numbers. *)
Definition Qltb (x y : Q) : bool := negb (Qle_bool y x).

(** ** The filtering engine: the getter [filteredDocuments] *)

(** The search term as the getter normalises it. *)
Definition normalizedTerm (st : LibraryViewState) : string :=
  JsString.toLowerCase (JsString.trim (searchTerm st)).

(** [agent?.name ?? ""] for the agent that [find] returns. *)
Definition authorName (st : LibraryViewState) (doc : DocumentRecord.t) : string :=
  match JsArray.find (fun a => String.eqb (Agent.id a) (DocumentRecord.authorId doc))
                     (agents st) with
  | Some agent => Agent.name agent
  | None => EmptyString
  end.

Definition haystack (st : LibraryViewState) (doc : DocumentRecord.t) : string :=
  JsString.toLowerCase
    (JsString.join " " [DocumentRecord.title doc; DocumentRecord.text doc; authorName st doc]).

(** The arrow function handed to [filter]. *)
Definition keeps (st : LibraryViewState) (term : string) (doc : DocumentRecord.t) : bool :=
  if negb (String.eqb (factionFilter st) "all")
     && negb (String.eqb (DocumentRecord.factionTag doc) (factionFilter st))
  then false
  else if showCanonOnly st && Qltb (DocumentRecord.canonWeight doc) 0.7
  then false
  else if JsString.is_empty term
  then true
  else JsString.includes (haystack st doc) term.

(** The comparator handed to [sort]: [b.timestamp - a.timestamp]. *)
Definition byRecency (a b : DocumentRecord.t) : Z :=
  DocumentRecord.timestamp b - DocumentRecord.timestamp a.

Definition filteredDocuments (st : LibraryViewState) : list DocumentRecord.t :=
  let term := normalizedTerm st in
  JsArray.sort byRecency (JsArray.filter (keeps st term) (documents st)).


(** ** Fixture data *)

(** The line break of the template literals. *)
Definition nl : string := String (ascii_of_nat 10) EmptyString.

Definition day_ms : Z := 1000 * 60 * 60 * 24.

Definition primeAgents : list Agent.t :=
  [ Agent.mk "a_mnemosyne" "Mnemosyne of the First Dawn"
      [0.95; 0.8; 0.1]%Q [0.2; 0.9; 0.6]%Q
      ["d_origin_sky"; "d_aurora_accord"] "Auroral Chorus" 92%Q;
    Agent.mk "a_cartographer" "Cartographer of Forgotten Straits"
      [0.45; 0.6; 0.8]%Q [0.7; 0.3; 0.2]%Q
      ["d_tidal_vow"; "d_silted_reckoning"] "Tidal Covenant" 68%Q;
    Agent.mk "a_scribe_of_breath" "Scribe of the Fifth Breath"
      [0.3; 0.4; 0.95]%Q [0.6; 0.4; 0.9]%Q
      ["d_origin_sky"; "d_ember_heresy"] "Ember Reliquary" 74%Q ].

(** Each document literal reads the clock on its own: [now0] .. [now4] are the
    five successive results of [Date.now()]. *)
Definition d_origin_sky (now0 : Z) : DocumentRecord.t :=
  DocumentRecord.mk "d_origin_sky" "Hymn of the Origin Sky"
    ("When the first readers traced the aurora, they wrote upon the sky itself." ++ nl ++
     "Every word became a filament, every doubt a comet-tail of gold." ++ nl ++
     "The Infinite Library inhaled and the shelves rearranged in concentric halos.")
    "a_mnemosyne" (now0 - day_ms * 92)
    [0.91; 0.78; 0.09]%Q [] "Auroral Chorus" 0.92%Q.

Definition d_aurora_accord (now1 : Z) : DocumentRecord.t :=
  DocumentRecord.mk "d_aurora_accord" "The Aurora Accord"
    ("In the seventh council, factions braided their doctrines." ++ nl ++
     "The accord bound mythographers to share marginalia before war." ++ nl ++
     "Peace held for three cycles until the Ember Reliquary questioned the margins themselves.")
    "a_mnemosyne" (now1 - day_ms * 61)
    [0.84; 0.76; 0.14]%Q ["d_origin_sky"] "Auroral Chorus" 0.81%Q.

Definition d_tidal_vow (now2 : Z) : DocumentRecord.t :=
  DocumentRecord.mk "d_tidal_vow" "Tidal Vow of the Covenant"
    ("Every tide erases and re-inscribes." ++ nl ++
     "The Covenant teaches archivists to wade through silted truths, " ++ nl ++
     "straining myths through coral lattices until only resonance remains." ++ nl ++
     "Their oath is etched on shells that sing when contradictions approach.")
    "a_cartographer" (now2 - day_ms * 38)
    [0.48; 0.61; 0.71]%Q ["d_origin_sky"] "Tidal Covenant" 0.69%Q.

Definition d_silted_reckoning (now3 : Z) : DocumentRecord.t :=
  DocumentRecord.mk "d_silted_reckoning" "Silted Reckoning"
    ("An expedition below the ninth stacks discovered anoxic shelves." ++ nl ++
     "Here the Library stores myths deemed too contradictory to burn." ++ nl ++
     "The Cartographer mapped them in whispers and promised to return with allies.")
    "a_cartographer" (now3 - day_ms * 17)
    [0.5; 0.55; 0.74]%Q ["d_tidal_vow"] "Tidal Covenant" 0.57%Q.

Definition d_ember_heresy (now4 : Z) : DocumentRecord.t :=
  DocumentRecord.mk "d_ember_heresy" "Treatise on Ember Heresy"
    ("To deny the flames is to deny revision." ++ nl ++
     "The Reliquary tends to contradictions by setting them alight," ++ nl ++
     "reading the smoke to decide which memory survives the purge." ++ nl ++
     "Some say the smoke has begun to spell dissent.")
    "a_scribe_of_breath" (now4 - day_ms * 11)
    [0.31; 0.46; 0.92]%Q ["d_origin_sky"; "d_aurora_accord"] "Ember Reliquary" 0.61%Q.

Definition primeDocuments (now0 now1 now2 now3 now4 : Z) : list DocumentRecord.t :=
  [ d_origin_sky now0; d_aurora_accord now1; d_tidal_vow now2;
    d_silted_reckoning now3; d_ember_heresy now4 ].

(** The view state the constructor of [InfiniteLibraryApp] builds. *)
Definition initialState (docs : list DocumentRecord.t) : LibraryViewState :=
  {| documents := docs;
     agents := primeAgents;
     activeDocumentId :=
       match docs with d :: _ => Some (DocumentRecord.id d) | [] => None end;
     searchTerm := "";
     factionFilter := "all";
     showCanonOnly := false |}.

(** ** The application object and [refreshArchiveList] *)

(** What the two refreshed DOM fragments hold; only their content matters. *)
Inductive ListItem : Type :=
| EmptyState
| ArchiveCard (docId : string) (active : bool).

Inductive DetailView : Type :=
| EmptyDetail
| DocumentDetail (docId : string).

Record InfiniteLibraryApp : Type := mkApp {
  state : LibraryViewState;
  archiveListEl : option (list ListItem);
  detailContainerEl : option DetailView;
}.

(** [doc.id === this.state.activeDocumentId], the right side being nullable. *)
Definition isActive (active : option string) (doc : DocumentRecord.t) : bool :=
  match active with
  | Some a => String.eqb (DocumentRecord.id doc) a
  | None => false
  end.

Definition setActiveDocumentId (st : LibraryViewState) (a : option string)
  : LibraryViewState :=
  {| documents := documents st;
     agents := agents st;
     activeDocumentId := a;
     searchTerm := searchTerm st;
     factionFilter := factionFilter st;
     showCanonOnly := showCanonOnly st |}.

Definition refreshDocumentView (app : InfiniteLibraryApp) : InfiniteLibraryApp :=
  match detailContainerEl app with
  | None => app
  | Some _ =>
      let active :=
        JsArray.find (isActive (activeDocumentId (state app))) (documents (state app)) in
      {| state := state app;
         archiveListEl := archiveListEl app;
         detailContainerEl :=
           Some match active with
                | None => EmptyDetail
                | Some doc => DocumentDetail (DocumentRecord.id doc)
                end |}
  end.

Definition refreshArchiveList (app : InfiniteLibraryApp) : InfiniteLibraryApp :=
  match archiveListEl app with
  | None => app
  | Some _ =>
      let docs := filteredDocuments (state app) in
      if (length docs =? 0)%nat then
        refreshDocumentView
          {| state := state app;
             archiveListEl := Some [EmptyState];
             detailContainerEl := detailContainerEl app |}
      else
        let cards :=
          map (fun doc => ArchiveCard (DocumentRecord.id doc)
                            (isActive (activeDocumentId (state app)) doc)) docs in
        let app1 :=
          {| state := state app;
             archiveListEl := Some cards;
             detailContainerEl := detailContainerEl app |} in
        if negb (JsArray.some (isActive (activeDocumentId (state app))) docs) then
          refreshDocumentView
            {| state :=
                 setActiveDocumentId (state app)
                   match docs with
                   | d :: _ => Some (DocumentRecord.id d)
                   | [] => None
                   end;
               archiveListEl := archiveListEl app1;
               detailContainerEl := detailContainerEl app1 |}
        else app1
  end.

(** ** Host environment of the settings store: JSON values, exceptions,
       [localStorage], the console *)

Inductive json : Type :=
| JNull
| JBool (b : bool)
| JNumber (n : Z)
| JString (s : string)
| JArray (elems : list json)
| JObject (props : gmap string json).

(** [T extends Record<string, unknown>]: an object as a finite map from
    property names to values. *)
Abbreviation T := (gmap string json).

Inductive exn : Type :=
| SecurityError
| QuotaExceededError
| SyntaxError
| Thrown (message : string).

(** How a call completes: normally with a value, or abruptly with a throw. *)
Inductive completion (A : Type) : Type :=
| Normal (a : A)
| Throw (e : exn).
Arguments Normal {A} a.
Arguments Throw {A} e.

(** The storage area: its entries, and how the browser answers an access.
    [getItem_denied] is the exception every read raises (storage disabled),
    [setItem_denied k v] the exception that storing [v] under [k] raises
    (quota exceeded, storage disabled). *)
Record Storage : Type := mkStorage {
  items : gmap string string;
  getItem_denied : option exn;
  setItem_denied : string -> string -> option exn;
}.

(** A subscriber is a function object; [===] compares references, so a
    subscriber is known by its reference. *)
Abbreviation Subscriber := nat (only parsing).

Record World : Type := mkWorld {
  localStorage : Storage;
  console : list (string * exn);
  invocations : list (Subscriber * T);
}.

(** Computations over the world that may throw. *)
Definition M (A : Type) : Type := World -> completion A * World.

Definition ret {A} (a : A) : M A := fun w => (Normal a, w).

Definition throw {A} (e : exn) : M A := fun w => (Throw e, w).

Definition bind {A B} (m : M A) (k : A -> M B) : M B :=
  fun w =>
    match m w with
    | (Normal a, w') => k a w'
    | (Throw e, w') => (Throw e, w')
    end.

(** [try { body } catch (error) { handler }]. *)
Definition try_catch {A} (body : M A) (handler : exn -> M A) : M A :=
  fun w =>
    match body w with
    | (Normal a, w') => (Normal a, w')
    | (Throw e, w') => handler e w'
    end.

Notation "'let*' x ':=' m 'in' k" := (bind m (fun x => k))
  (at level 10, x name, m at level 100, k at level 200).

Definition getItem (key : string) : M (option string) :=
  fun w =>
    match getItem_denied (localStorage w) with
    | Some e => (Throw e, w)
    | None => (Normal (items (localStorage w) !! key), w)
    end.

Definition setItem (key value : string) : M unit :=
  fun w =>
    let ls := localStorage w in
    match setItem_denied ls key value with
    | Some e => (Throw e, w)
    | None =>
        (Normal tt,
         {| localStorage :=
              {| items := <[key := value]> (items ls);
                 getItem_denied := getItem_denied ls;
                 setItem_denied := setItem_denied ls |};
            console := console w;
            invocations := invocations w |})
    end.

Definition console_warn (message : string) (error : exn) : M unit :=
  fun w =>
    (Normal tt,
     {| localStorage := localStorage w;
        console := console w ++ [(message, error)];
        invocations := invocations w |}).

(** [arr.forEach(f)]: a throw of [f] ends the traversal. *)
Fixpoint forEach {A} (arr : list A) (f : A -> M unit) : M unit :=
  match arr with
  | [] => ret tt
  | x :: rest => let* _ := f x in forEach rest f
  end.

(** The own enumerable properties that an object spread [...source] copies:
    those of an object; the indexed elements of an array; the indexed code
    units of a string; none for [null], a boolean or a number. *)
Definition indexed (elems : list json) : T :=
  list_to_map (imap (fun i x => (pretty i, x)) elems).

Definition copyDataProperties (source : json) : T :=
  match source with
  | JObject props => props
  | JArray elems => indexed elems
  | JString s =>
      indexed (map (fun c => JString (String c EmptyString)) (list_ascii_of_string s))
  | JNull | JBool _ | JNumber _ => ∅
  end.

(** [{ ...target, ...source }]: the later spread overrides the earlier. *)
Definition objectSpread (target : T) (source : json) : T :=
  copyDataProperties source ∪ target.

(** ** [class LocalStorageStore] *)

Module LocalStorageStore.

Record t : Type := mk {
  key : string;
  defaultValue : T;
  subscribers : list Subscriber;
}.

(** The constructor. *)
Definition new (key : string) (defaultValue : T) : t :=
  {| key := key; defaultValue := defaultValue; subscribers := [] |}.

(** What [read] hands back: the object held in [this.defaultValue] itself, or
    an object that the spread has newly built. *)
Inductive Returned : Type :=
| TheDefault
| Fresh (o : T).

Definition value_of (store : t) (r : Returned) : T :=
  match r with
  | TheDefault => defaultValue store
  | Fresh o => o
  end.

(** The closure that [subscribe] returns captures its argument. *)
Record Unsubscribe : Type := mkUnsubscribe { captured : Subscriber }.

Section Methods.

(** [JSON.parse] and [JSON.stringify] of the host, and the bodies of the
    subscribers: what calling the function behind a reference does. *)
Variable JSON_parse : string -> completion json.
Variable JSON_stringify : json -> string.
Variable body : Subscriber -> T -> completion unit.

Definition parse (raw : string) : M json :=
  fun w => (JSON_parse raw, w).

Definition read (store : t) : M Returned :=
  try_catch
    (let* raw := getItem (key store) in
     match raw with
     | None => ret TheDefault
     | Some text =>
         if JsString.is_empty text then ret TheDefault
         else let* parsed := parse text in
              ret (Fresh (objectSpread (defaultValue store) parsed))
     end)
    (fun error =>
       let* _ := console_warn ("Failed to load " ++ key store ++ " from storage") error in
       ret TheDefault).

(** [subscriber(value)]: the call is made, then completes as the body does. *)
Definition invoke (value : T) (subscriber : Subscriber) : M unit :=
  fun w =>
    (body subscriber value,
     {| localStorage := localStorage w;
        console := console w;
        invocations := invocations w ++ [(subscriber, value)] |}).

Definition write (store : t) (value : T) : M unit :=
  let* _ := setItem (key store) (JSON_stringify (JObject value)) in
  forEach (subscribers store) (invoke value).

Definition subscribe (store : t) (subscriber : Subscriber) : t * Unsubscribe :=
  ({| key := key store;
      defaultValue := defaultValue store;
      subscribers := subscribers store ++ [subscriber] |},
   {| captured := subscriber |}).

(** Calling the closure. *)
Definition unsubscribe (handle : Unsubscribe) (store : t) : t :=
  {| key := key store;
     defaultValue := defaultValue store;
     subscribers :=
       JsArray.filter (fun fn => negb (Nat.eqb fn (captured handle))) (subscribers store) |}.

End Methods.
End LocalStorageStore.

(** ** The getter over the object heap

    The records, the two fixture collections and [this.state] are objects
    that are shared by reference: an array holds references to its elements.
    Here the getter runs on a heap of such objects, with the allocation that
    [filter] makes and the in-place update that [sort] makes written out. *)

Module Heap.

Abbreviation loc := positive (only parsing).

(** The view-state object: the collections are held by reference. *)
Record StateObject : Type := mkState {
  documents_ref : loc;
  agents_ref : loc;
  activeDocumentId : option string;
  searchTerm : string;
  factionFilter : string;
  showCanonOnly : bool;
}.

Inductive object : Type :=
| Document (d : DocumentRecord.t)
| AgentObject (a : Agent.t)
| Array (elems : list loc)
| State (s : StateObject).

Abbreviation heap := (gmap positive object).

(** A heap computation; [None] is a reference to no object of the right kind. *)
Definition H (A : Type) : Type := heap -> option (A * heap).

Definition documentAt (h : heap) (l : loc) : option DocumentRecord.t :=
  match h !! l with
  | Some (Document d) => Some d
  | _ => None
  end.

Definition agentAt (h : heap) (l : loc) : option Agent.t :=
  match h !! l with
  | Some (AgentObject a) => Some a
  | _ => None
  end.

(** The records that the elements of the array at [arr] refer to. *)
Definition elementsAt {A} (at_ : heap -> loc -> option A) (h : heap) (arr : loc)
  : option (list A) :=
  match h !! arr with
  | Some (Array elems) => mapM (at_ h) elems
  | _ => None
  end.

(** The view state that the references of the state object lead to. *)
Definition resolve (this_state : loc) (h : heap) : option LibraryViewState :=
  match h !! this_state with
  | Some (State s) =>
      match elementsAt documentAt h (documents_ref s),
            elementsAt agentAt h (agents_ref s) with
      | Some docs, Some ags =>
          Some (mkView docs ags (activeDocumentId s) (searchTerm s)
                       (factionFilter s) (showCanonOnly s))
      | _, _ => None
      end
  | _ => None
  end.

(** [arr.filter(p)] allocates the array it returns; the new array refers to
    the kept elements themselves. *)
Definition array_filter (arr : loc) (p : DocumentRecord.t -> bool) : H loc :=
  fun h =>
    match h !! arr with
    | Some (Array elems) =>
        let kept :=
          JsArray.filter
            (fun l => match documentAt h l with Some d => p d | None => false end)
            elems in
        let r := fresh (dom h) in
        Some (r, <[r := Array kept]> h)
    | _ => None
    end.

(** [arr.sort(cmp)] reorders [arr] itself and returns it. *)
Definition array_sort (arr : loc) (cmp : DocumentRecord.t -> DocumentRecord.t -> Z) : H loc :=
  fun h =>
    match h !! arr with
    | Some (Array elems) =>
        let cmp_refs (a b : loc) : Z :=
          match documentAt h a, documentAt h b with
          | Some x, Some y => cmp x y
          | _, _ => 0
          end in
        Some (arr, <[arr := Array (JsArray.sort cmp_refs elems)]> h)
    | _ => None
    end.

Definition filteredDocuments (this_state : loc) : H loc :=
  fun h =>
    match resolve this_state h, h !! this_state with
    | Some st, Some (State s) =>
        let term := normalizedTerm st in
        match array_filter (documents_ref s) (keeps st term) h with
        | Some (filtered, h1) => array_sort filtered byRecency h1
        | None => None
        end
    | _, _ => None
    end.

End Heap.

(** ** An instance of the host's JSON codec

    [JSON.stringify] and [JSON.parse] on the values of [json] with Latin-1
    strings, for running the store on concrete inputs.  Numbers are written
    and read as integer literals; a text with a fraction or an exponent, or
    with an escape to a code unit above 255, is not in the fragment.
    [stringify] writes the properties of an object in the order of the map,
    which [parse] does not depend on. *)

Module JSON.

Definition hex_digit (n : nat) : ascii :=
  ascii_of_nat (if (n <? 10)%nat then 48 + n else 87 + n).

(** The escape of a code unit inside a string literal, if it needs one. *)
Definition escape (c : ascii) : string :=
  let n := nat_of_ascii c in
  if (n =? 34)%nat then "\" ++ String c ""
  else if (n =? 92)%nat then "\\"
  else if (n =? 8)%nat then "\b"
  else if (n =? 12)%nat then "\f"
  else if (n =? 10)%nat then "\n"
  else if (n =? 13)%nat then "\r"
  else if (n =? 9)%nat then "\t"
  else if (n <? 32)%nat then
    "\u00" ++ String (hex_digit (n / 16)) (String (hex_digit (n mod 16)) "")
  else String c "".

Fixpoint escape_all (s : string) : string :=
  match s with
  | EmptyString => EmptyString
  | String c s' => escape c ++ escape_all s'
  end.

Definition quote (s : string) : string :=
  String "034" (escape_all s ++ String "034" "").

Fixpoint stringify (v : json) : string :=
  match v with
  | JNull => "null"
  | JBool true => "true"
  | JBool false => "false"
  | JNumber n => pretty n
  | JString s => quote s
  | JArray elems =>
      "[" ++ JsString.join "," (map stringify elems) ++ "]"
  | JObject props =>
      "{" ++ JsString.join ","
               (map_fold (fun k x acc => (quote k ++ ":" ++ stringify x) :: acc) [] props)
          ++ "}"
  end.

Fixpoint skip_ws (s : string) : string :=
  match s with
  | String c s' =>
      let n := nat_of_ascii c in
      if (n =? 32)%nat || (n =? 9)%nat || (n =? 10)%nat || (n =? 13)%nat
      then skip_ws s' else s
  | EmptyString => EmptyString
  end.

Definition is_digit (c : ascii) : bool :=
  let n := nat_of_ascii c in (48 <=? n)%nat && (n <=? 57)%nat.

Definition hex_value (c : ascii) : option nat :=
  let n := nat_of_ascii c in
  if (48 <=? n)%nat && (n <=? 57)%nat then Some (n - 48)%nat
  else if (97 <=? n)%nat && (n <=? 102)%nat then Some (n - 87)%nat
  else if (65 <=? n)%nat && (n <=? 70)%nat then Some (n - 55)%nat
  else None.

(** The digits at the head of [s], accumulated onto [acc], and the rest. *)
Fixpoint digits (acc : Z) (s : string) : Z * string :=
  match s with
  | String c s' =>
      if is_digit c then digits (10 * acc + Z.of_nat (nat_of_ascii c - 48)) s'
      else (acc, s)
  | EmptyString => (acc, EmptyString)
  end.

(** An integer literal: no leading zero, no fraction, no exponent. *)
Definition unsigned_literal (s : string) : option (Z * string) :=
  match s with
  | String c s' =>
      if is_digit c then
        let '(n, rest) := digits 0 s in
        let leading_zero :=
          Ascii.eqb c "0" && match s' with String d _ => is_digit d | _ => false end in
        let continued :=
          match rest with
          | String d _ => Ascii.eqb d "." || Ascii.eqb d "e" || Ascii.eqb d "E"
          | EmptyString => false
          end in
        if leading_zero || continued then None else Some (n, rest)
      else None
  | EmptyString => None
  end.

Definition number_literal (s : string) : option (Z * string) :=
  match s with
  | String "-" s' =>
      match unsigned_literal s' with
      | Some (n, rest) => Some (- n, rest)
      | None => None
      end
  | _ => unsigned_literal s
  end.

(** The characters of a string literal after its opening quote. *)
Fixpoint string_body (s : string) : option (string * string) :=
  match s with
  | EmptyString => None
  | String "034" rest => Some (EmptyString, rest)
  | String "\" (String "u" (String a (String b (String c (String d s'))))) =>
      match hex_value a, hex_value b, hex_value c, hex_value d with
      | Some 0%nat, Some 0%nat, Some hi, Some lo =>
          match string_body s' with
          | Some (t, rest) => Some (String (ascii_of_nat (16 * hi + lo)) t, rest)
          | None => None
          end
      | _, _, _, _ => None
      end
  | String "\" (String e s') =>
      let continue (c : ascii) (tail : string) :=
        match string_body tail with
        | Some (t, rest) => Some (String c t, rest)
        | None => None
        end in
      match e with
      | "034"%char => continue "034"%char s'
      | "\"%char => continue "\"%char s'
      | "/"%char => continue "/"%char s'
      | "b"%char => continue "008"%char s'
      | "f"%char => continue "012"%char s'
      | "n"%char => continue "010"%char s'
      | "r"%char => continue "013"%char s'
      | "t"%char => continue "009"%char s'
      | _ => None
      end
  | String c s' =>
      if (nat_of_ascii c <? 32)%nat then None
      else match string_body s' with
           | Some (t, rest) => Some (String c t, rest)
           | None => None
           end
  end.

(** One value and the text after it.  [fuel] bounds the nesting and the
    number of elements; the length of the text is always enough. *)
Fixpoint value (fuel : nat) (s : string) : option (json * string) :=
  match fuel with
  | O => None
  | S fuel' =>
      let fix elements (n : nat) (acc : list json) (s : string)
        : option (list json * string) :=
        match n with
        | O => None
        | S n' =>
            match value fuel' (skip_ws s) with
            | Some (x, rest) =>
                match skip_ws rest with
                | String "," rest' => elements n' (x :: acc) rest'
                | String "]" rest' => Some (rev (x :: acc), rest')
                | _ => None
                end
            | None => None
            end
        end in
      let fix members (n : nat) (acc : T) (s : string) : option (T * string) :=
        match n with
        | O => None
        | S n' =>
            match skip_ws s with
            | String "034" s1 =>
                match string_body s1 with
                | Some (k, s2) =>
                    match skip_ws s2 with
                    | String ":" s3 =>
                        match value fuel' (skip_ws s3) with
                        | Some (x, rest) =>
                            match skip_ws rest with
                            | String "," rest' => members n' (<[k := x]> acc) rest'
                            | String "}" rest' => Some (<[k := x]> acc, rest')
                            | _ => None
                            end
                        | None => None
                        end
                    | _ => None
                    end
                | None => None
                end
            | _ => None
            end
        end in
      match s with
      | String "n" (String "u" (String "l" (String "l" rest))) => Some (JNull, rest)
      | String "t" (String "r" (String "u" (String "e" rest))) => Some (JBool true, rest)
      | String "f" (String "a" (String "l" (String "s" (String "e" rest)))) =>
          Some (JBool false, rest)
      | String "034" s' =>
          match string_body s' with
          | Some (t, rest) => Some (JString t, rest)
          | None => None
          end
      | String "[" s' =>
          match skip_ws s' with
          | String "]" rest => Some (JArray [], rest)
          | _ =>
              match elements fuel' [] s' with
              | Some (elems, rest) => Some (JArray elems, rest)
              | None => None
              end
          end
      | String "{" s' =>
          match skip_ws s' with
          | String "}" rest => Some (JObject ∅, rest)
          | _ =>
              match members fuel' ∅ s' with
              | Some (props, rest) => Some (JObject props, rest)
              | None => None
              end
          end
      | _ =>
          match number_literal s with
          | Some (n, rest) => Some (JNumber n, rest)
          | None => None
          end
      end
  end.

(** [JSON.parse]: one value between white space, nothing else; anything else
    is a [SyntaxError]. *)
Definition parse (text : string) : completion json :=
  match value (S (String.length text)) (skip_ws text) with
  | Some (v, rest) =>
      match skip_ws rest with
      | EmptyString => Normal v
      | _ => Throw SyntaxError
      end
  | None => Throw SyntaxError
  end.

End JSON.

(** ** Vocabulary of the statements *)

(** [a] is at least as recent as [b]. *)
Definition notOlder (a b : DocumentRecord.t) : Prop :=
  DocumentRecord.timestamp b <= DocumentRecord.timestamp a.

(** The author's name of the search, in the words of the specification: the
    name of the agent that the author id resolves to, which is the first
    agent with that id, or the empty string when no agent has the id. *)
Inductive AuthorNameIs (ags : list Agent.t) (authorId : string) : string -> Prop :=
| author_found (before : list Agent.t) (agent : Agent.t) (rest : list Agent.t) :
    ags = (before ++ agent :: rest)%list ->
    Agent.id agent = authorId ->
    (forall a, In a before -> Agent.id a <> authorId) ->
    AuthorNameIs ags authorId (Agent.name agent)
| author_dangling :
    (forall a, In a ags -> Agent.id a <> authorId) ->
    AuthorNameIs ags authorId EmptyString.

(** The documents filed at the instant [t], in their order. *)
Definition filedAt (t : Z) (l : list DocumentRecord.t) : list DocumentRecord.t :=
  JsArray.filter (fun d => DocumentRecord.timestamp d =? t) l.

(** The view state of the canon-only scenario over the fixtures. *)
Definition canonOnlyView (docs : list DocumentRecord.t) (active : option string)
  : LibraryViewState :=
  {| documents := docs;
     agents := primeAgents;
     activeDocumentId := active;
     searchTerm := "";
     factionFilter := "all";
     showCanonOnly := true |}.

(** The subscribers that a notification reaches: those up to and including
    the first whose body throws on [value]. *)
Fixpoint reached (body : Subscriber -> T -> completion unit) (value : T)
         (subs : list Subscriber) : list Subscriber :=
  match subs with
  | [] => []
  | s :: rest =>
      match body s value with
      | Normal _ => s :: reached body value rest
      | Throw _ => [s]
      end
  end.

(** How the notification completes: as the first throwing body, if any. *)
Fixpoint notified (body : Subscriber -> T -> completion unit) (value : T)
         (subs : list Subscriber) : completion unit :=
  match subs with
  | [] => Normal tt
  | s :: rest =>
      match body s value with
      | Normal _ => notified body value rest
      | Throw e => Throw e
      end
  end.

(** The world after the calls [calls] were made. *)
Definition after_calls (w : World) (calls : list (Subscriber * T)) : World :=
  {| localStorage := localStorage w;
     console := console w;
     invocations := (invocations w ++ calls)%list |}.

(** The world after [text] was stored under [key]. *)
Definition after_store (w : World) (key text : string) : World :=
  {| localStorage :=
       {| items := <[key := text]> (items (localStorage w));
          getItem_denied := getItem_denied (localStorage w);
          setItem_denied := setItem_denied (localStorage w) |};
     console := console w;
     invocations := invocations w |}.

(** The world after the warning of [read] was logged. *)
Definition after_warning (w : World) (key : string) (error : exn) : World :=
  {| localStorage := localStorage w;
     console := (console w ++ [(("Failed to load " ++ key ++ " from storage")%string, error)])%list;
     invocations := invocations w |}.

(** The settings store that the constructor of [InfiniteLibraryApp] makes. *)
Definition settingsDefault : T :=
  <["modelSlug" := JString "openrouter/auto"]> (<["apiKey" := JString ""]> ∅).

Definition settingsStore : LocalStorageStore.t :=
  LocalStorageStore.new "infinite-library.settings" settingsDefault.

(** *** Concrete worlds, subscribers and heaps for the examples *)

Definition clock : Z := 1700000000000.

Definition fixtureDocuments : list DocumentRecord.t :=
  primeDocuments clock clock clock clock clock.

(** A storage that takes every write, and one that is over quota. *)
Definition roomyStorage (entries : gmap string string) : Storage :=
  {| items := entries; getItem_denied := None; setItem_denied := fun _ _ => None |}.

Definition fullStorage (entries : gmap string string) : Storage :=
  {| items := entries;
     getItem_denied := None;
     setItem_denied := fun _ _ => Some QuotaExceededError |}.

Definition worldOf (ls : Storage) : World :=
  {| localStorage := ls; console := []; invocations := [] |}.

(** Subscriber bodies: all return; or the one known as 1 throws. *)
Definition quiet (s : Subscriber) (value : T) : completion unit := Normal tt.

Definition firstThrows (s : Subscriber) (value : T) : completion unit :=
  if (s =? 1)%nat then Throw (Thrown "subscriber failed") else Normal tt.

Definition someSettings : T :=
  <["modelSlug" := JString "anthropic/claude-3-sonnet"]> (<["apiKey" := JString "sk-1"]> ∅).

(** The store with the subscribers 1 and 2, registered in that order. *)
Definition watchedStore : LocalStorageStore.t :=
  fst (LocalStorageStore.subscribe (fst (LocalStorageStore.subscribe settingsStore 1%nat)) 2%nat).

(** The application after "zzz" was typed into the search box, before the
    list is refreshed: the first document is still the active one. *)
Definition searchingApp : InfiniteLibraryApp :=
  {| state :=
       {| documents := fixtureDocuments;
          agents := primeAgents;
          activeDocumentId := Some "d_origin_sky";
          searchTerm := "zzz";
          factionFilter := "all";
          showCanonOnly := false |};
     archiveListEl :=
       Some (map (fun d => ArchiveCard (DocumentRecord.id d)
                             (String.eqb (DocumentRecord.id d) "d_origin_sky"))
                 (filteredDocuments (initialState fixtureDocuments)));
     detailContainerEl := Some (DocumentDetail "d_origin_sky") |}.

(** A heap with the state object at 1, the documents array at 2, the agents
    array at 3, the five documents at 11..15 and the three agents at 21..23. *)
Definition fixtureHeap : gmap positive Heap.object :=
  <[1%positive := Heap.State (Heap.mkState 2 3 (Some "d_origin_sky") "" "Tidal Covenant" false)]>
    (<[2%positive := Heap.Array [11; 12; 13; 14; 15]%positive]>
       (<[3%positive := Heap.Array [21; 22; 23]%positive]>
          (list_to_map
             (zip [11; 12; 13; 14; 15]%positive (map Heap.Document fixtureDocuments)
              ++ zip [21; 22; 23]%positive (map Heap.AgentObject primeAgents))%list))).

(** ** The rest of [main.ts]: relative times, the faction options, the card
       and detail texts, the event handlers, the settings form *)

(** [formatRelativeTime(timestamp)], [now] being the result of [Date.now()].
    [Math.floor] of a quotient of integers is [Z.div]; a template literal
    writes an integer in decimal. *)
Definition formatRelativeTime (now timestamp : Z) : string :=
  let delta := now - timestamp in
  let days := delta / (1000 * 60 * 60 * 24) in
  if days >? 1 then pretty days ++ " days ago"
  else if days =? 1 then "yesterday"
  else
    let hours := delta / (1000 * 60 * 60) in
    if hours >=? 1 then pretty hours ++ " hours ago"
    else
      let minutes := Z.max 1 (delta / (1000 * 60)) in
      pretty minutes ++ " minutes ago".

(** [[...new Set(values)]]: a set keeps a value at its first insertion. *)
Definition distinct (values : list string) : list string :=
  fold_left
    (fun seen x => if existsb (String.eqb x) seen then seen else (seen ++ [x])%list)
    values [].

(** The options of the faction select in [renderMainLayout]. *)
Definition factionOptions (st : LibraryViewState) : list string :=
  "all" :: distinct (map DocumentRecord.factionTag (documents st)).

Definition setSearchTerm (st : LibraryViewState) (value : string) : LibraryViewState :=
  {| documents := documents st;
     agents := agents st;
     activeDocumentId := activeDocumentId st;
     searchTerm := value;
     factionFilter := factionFilter st;
     showCanonOnly := showCanonOnly st |}.

Definition setFactionFilter (st : LibraryViewState) (value : string) : LibraryViewState :=
  {| documents := documents st;
     agents := agents st;
     activeDocumentId := activeDocumentId st;
     searchTerm := searchTerm st;
     factionFilter := value;
     showCanonOnly := showCanonOnly st |}.

Definition setShowCanonOnly (st : LibraryViewState) (checked : bool) : LibraryViewState :=
  {| documents := documents st;
     agents := agents st;
     activeDocumentId := activeDocumentId st;
     searchTerm := searchTerm st;
     factionFilter := factionFilter st;
     showCanonOnly := checked |}.

(** The view state with every filter off. *)
Definition unfiltered (st : LibraryViewState) : LibraryViewState :=
  setShowCanonOnly (setFactionFilter (setSearchTerm st EmptyString) "all") false.

Definition withState (app : InfiniteLibraryApp) (st : LibraryViewState)
  : InfiniteLibraryApp :=
  {| state := st;
     archiveListEl := archiveListEl app;
     detailContainerEl := detailContainerEl app |}.

(** The listeners that [renderHeader], [renderMainLayout] and
    [refreshArchiveList] install. *)
Definition onCanonToggle (checked : bool) (app : InfiniteLibraryApp) : InfiniteLibraryApp :=
  refreshArchiveList (withState app (setShowCanonOnly (state app) checked)).

Definition onSearchInput (value : string) (app : InfiniteLibraryApp) : InfiniteLibraryApp :=
  refreshArchiveList (withState app (setSearchTerm (state app) value)).

Definition onFactionChange (value : string) (app : InfiniteLibraryApp) : InfiniteLibraryApp :=
  refreshArchiveList (withState app (setFactionFilter (state app) value)).

Definition onCardClick (doc : DocumentRecord.t) (app : InfiniteLibraryApp)
  : InfiniteLibraryApp :=
  refreshDocumentView
    (refreshArchiveList
       (withState app (setActiveDocumentId (state app) (Some (DocumentRecord.id doc))))).

(** The author that a card and the detail pane look up. *)
Definition findAuthor (st : LibraryViewState) (doc : DocumentRecord.t) : option Agent.t :=
  JsArray.find (fun agent => String.eqb (Agent.id agent) (DocumentRecord.authorId doc))
               (agents st).

(** [author?.name ?? "Unknown author"] on a card. *)
Definition cardAuthor (st : LibraryViewState) (doc : DocumentRecord.t) : string :=
  match findAuthor st doc with
  | Some author => Agent.name author
  | None => "Unknown author"
  end.

(** [...find(...)?.credibility ?? 50] on a card. *)
Definition cardCredibility (st : LibraryViewState) (doc : DocumentRecord.t) : Q :=
  match findAuthor st doc with
  | Some author => Agent.credibility author
  | None => 50%Q
  end.

(** [x >= y] on numbers. *)
Definition Qgeb (x y : Q) : bool := Qle_bool y x.

(** The status on the badge of a card. *)
Definition canonStatus (doc : DocumentRecord.t) : string :=
  if Qgeb (DocumentRecord.canonWeight doc) 0.7 then "Canon"
  else if Qgeb (DocumentRecord.canonWeight doc) 0.5 then "Disputed"
  else "Apocrypha".

(** [Boolean(s)] for a string: false for the empty string only. *)
Definition truthy (s : string) : bool := negb (JsString.is_empty s).

(** The labels of the references of the active document in
    [refreshDocumentView], before they are joined. *)
Definition referenceLabels (st : LibraryViewState) (active : DocumentRecord.t)
  : list string :=
  JsArray.filter truthy
    (map (fun refId =>
            match JsArray.find (fun doc => String.eqb (DocumentRecord.id doc) refId)
                               (documents st) with
            | Some doc => DocumentRecord.title doc
            | None => "Unknown fragment"
            end)
         (DocumentRecord.references active)).

Definition referencesText (st : LibraryViewState) (active : DocumentRecord.t) : string :=
  JsString.join ", " (referenceLabels st active).

(** [parts.filter(Boolean)] on an array of strings and [undefined]s. *)
Fixpoint filterBoolean (parts : list (option string)) : list string :=
  match parts with
  | [] => []
  | Some s :: rest => if truthy s then s :: filterBoolean rest else filterBoolean rest
  | None :: rest => filterBoolean rest
  end.

(** The parts of the metadata line of the detail pane, before they are
    joined. *)
Definition detailMetaParts (now : Z) (st : LibraryViewState) (active : DocumentRecord.t)
  : list string :=
  let author := findAuthor st active in
  let references := referencesText st active in
  filterBoolean
    [ match author with
      | Some a => Some ("By " ++ Agent.name a)
      | None => None
      end;
      Some (DocumentRecord.factionTag active);
      Some ("Filed " ++ formatRelativeTime now (DocumentRecord.timestamp active));
      if truthy references then Some ("References: " ++ references) else None ].

(** The part of the application that the settings form works on. *)
Record SettingsSession : Type := mkSession {
  store : LocalStorageStore.t;
  settings : T;
}.

Section SettingsForm.

Variable JSON_parse : string -> completion json.
Variable JSON_stringify : json -> string.
Variable body : Subscriber -> T -> completion unit.

(** The constructor: [this.settings = this.settingsStore.read()]. *)
Definition openSettings (store : LocalStorageStore.t) : M SettingsSession :=
  let* r := LocalStorageStore.read JSON_parse store in
  ret {| store := store; settings := LocalStorageStore.value_of store r |}.

(** The listener of a field of the form: [this.settings] is replaced by a
    copy with the field set, then written; the assignment is made before the
    write, so it stays when the write raises. *)
Definition onFieldInput (field value : string) (s : SettingsSession) (w : World)
  : completion unit * SettingsSession * World :=
  let updated := <[field := JString value]> (settings s) in
  let s' := {| store := store s; settings := updated |} in
  let '(c, w') := LocalStorageStore.write JSON_stringify body (store s) updated w in
  (c, s', w').

Definition onModelSlugInput : string -> SettingsSession -> World
                              -> completion unit * SettingsSession * World :=
  onFieldInput "modelSlug".

Definition onApiKeyInput : string -> SettingsSession -> World
                           -> completion unit * SettingsSession * World :=
  onFieldInput "apiKey".

End SettingsForm.

(** The items of the list show the documents [docs]: one card for each, in
    order, or the empty-state item alone when there is none. *)
Definition listShows (items : list ListItem) (docs : list DocumentRecord.t) : Prop :=
  match docs with
  | [] => items = [EmptyState]
  | _ :: _ =>
      Forall2 (fun item doc => exists marked, item = ArchiveCard (DocumentRecord.id doc) marked)
              items docs
  end.

(** *** Applications and sessions for the examples *)

(** The application as the constructor leaves it before the first refresh:
    the initial view state, the list and the detail pane mounted. *)
Definition mountedApp : InfiniteLibraryApp :=
  {| state := initialState fixtureDocuments;
     archiveListEl := Some [];
     detailContainerEl := Some EmptyDetail |}.

(** The application after "Tidal Covenant" was chosen in the faction select,
    before the list is refreshed: the first document, of another faction, is
    still the active one. *)
Definition choosingApp : InfiniteLibraryApp :=
  withState mountedApp (setFactionFilter (state mountedApp) "Tidal Covenant").

Definition defaultSession : SettingsSession :=
  {| store := settingsStore; settings := settingsDefault |}.

(** * Properties *)

(** ** Strings and arrays *)

Lemma is_empty_true (s : string) : JsString.is_empty s = true <-> s = EmptyString.
Proof. destruct s; simpl; split; congruence. Qed.

Lemma startsWith_spec (s p : string) :
  JsString.startsWith s p = true <-> exists post, s = p ++ post.
Proof.
  revert s; induction p as [|a p IH]; intros [|b s]; simpl.
  - split; [intros _; now exists EmptyString | reflexivity].
  - split; [intros _; now exists (String b s) | reflexivity].
  - split; [discriminate | intros [post H]; discriminate].
  - destruct (Ascii.eqb_spec a b) as [->|Hne].
    + rewrite IH. split; intros [post H]; exists post.
      * now rewrite H.
      * now injection H.
    + split; [discriminate | intros [post H]]. injection H as Hab _. congruence.
Qed.

Lemma includes_spec (hay needle : string) :
  JsString.includes hay needle = true <-> JsString.Substring needle hay.
Proof.
  unfold JsString.Substring.
  induction hay as [|c hay IH]; cbn [JsString.includes].
  - rewrite orb_false_r, startsWith_spec. split.
    + intros [post H]. now exists EmptyString, post.
    + intros [pre [post H]]. destruct pre; [now exists post | discriminate].
  - rewrite orb_true_iff, startsWith_spec, IH. split.
    + intros [[post H] | [pre [post H]]].
      * now exists EmptyString, post.
      * exists (String c pre), post. simpl. now rewrite H.
    + intros [pre [post H]]. destruct pre as [|c' pre].
      * left. now exists post.
      * right. exists pre, post. simpl in H. now injection H.
Qed.

Lemma array_filter_In {A} (p : A -> bool) (x : A) (arr : list A) :
  In x (JsArray.filter p arr) <-> In x arr /\ p x = true.
Proof.
  induction arr as [|y arr IH]; simpl.
  - tauto.
  - destruct (p y) eqn:Hy; simpl; rewrite IH; intuition congruence.
Qed.

Lemma insert_Permutation {A} (cmp : A -> A -> Z) (x : A) (l : list A) :
  Permutation (JsArray.insert cmp x l) (x :: l).
Proof.
  induction l as [|y l IH]; simpl.
  - reflexivity.
  - destruct (cmp x y <=? 0); [reflexivity|].
    rewrite IH. apply perm_swap.
Qed.

Lemma sort_Permutation {A} (cmp : A -> A -> Z) (l : list A) :
  Permutation (JsArray.sort cmp l) l.
Proof.
  induction l as [|x l IH]; simpl; [reflexivity|].
  rewrite insert_Permutation. now constructor.
Qed.

Lemma array_sort_In {A} (cmp : A -> A -> Z) (x : A) (l : list A) :
  In x (JsArray.sort cmp l) <-> In x l.
Proof.
  split; apply Permutation_in; [|symmetry]; apply sort_Permutation.
Qed.

Lemma array_some_true {A} (p : A -> bool) (l : list A) :
  JsArray.some p l = true <-> exists x, In x l /\ p x = true.
Proof.
  induction l as [|y l IH]; simpl.
  - split; [discriminate | intros [x [[] _]]].
  - rewrite orb_true_iff, IH. split.
    + intros [H | [x [H1 H2]]]; eauto.
    + intros [x [[->|H1] H2]]; eauto.
Qed.

(** ** Sorting by recency *)

Lemma insert_byRecency_sorted (x : DocumentRecord.t) (l : list DocumentRecord.t) :
  StronglySorted notOlder l -> StronglySorted notOlder (JsArray.insert byRecency x l).
Proof.
  induction 1 as [|y l Hl IH Hy]; simpl.
  - repeat constructor.
  - unfold byRecency at 1. destruct (Z.leb_spec (DocumentRecord.timestamp y - DocumentRecord.timestamp x) 0) as [Hle|Hgt].
    + constructor; [now constructor|].
      constructor; [unfold notOlder; lia|].
      eapply Forall_impl; [exact Hy|]. unfold notOlder. intros; lia.
    + constructor; [exact IH|].
      eapply Permutation_Forall; [symmetry; apply insert_Permutation|].
      constructor; [unfold notOlder; lia | exact Hy].
Qed.

Lemma sort_byRecency_sorted (l : list DocumentRecord.t) :
  StronglySorted notOlder (JsArray.sort byRecency l).
Proof.
  induction l as [|x l IH]; simpl; [constructor|].
  now apply insert_byRecency_sorted.
Qed.

Lemma insert_byRecency_stable (t : Z) (x : DocumentRecord.t) (l : list DocumentRecord.t) :
  filedAt t (JsArray.insert byRecency x l) = filedAt t (x :: l).
Proof.
  induction l as [|y l IH]; simpl; [reflexivity|].
  unfold byRecency at 1.
  destruct (Z.leb_spec (DocumentRecord.timestamp y - DocumentRecord.timestamp x) 0) as [Hle|Hgt];
    [reflexivity|].
  unfold filedAt in *. simpl in *. rewrite IH.
  destruct (Z.eqb_spec (DocumentRecord.timestamp x) t),
           (Z.eqb_spec (DocumentRecord.timestamp y) t); try reflexivity; lia.
Qed.

Lemma sort_byRecency_stable (t : Z) (l : list DocumentRecord.t) :
  filedAt t (JsArray.sort byRecency l) = filedAt t l.
Proof.
  induction l as [|x l IH]; simpl; [reflexivity|].
  rewrite insert_byRecency_stable. unfold filedAt in *. simpl. now rewrite IH.
Qed.

(** ** The filtering engine *)

Lemma Qltb_false (x y : Q) : Qltb x y = false <-> (y <= x)%Q.
Proof.
  unfold Qltb. rewrite negb_false_iff. apply Qle_bool_iff.
Qed.

Lemma keeps_spec (st : LibraryViewState) (term : string) (doc : DocumentRecord.t) :
  keeps st term doc = true <->
  (factionFilter st <> "all" -> DocumentRecord.factionTag doc = factionFilter st) /\
  (showCanonOnly st = true -> (0.7 <= DocumentRecord.canonWeight doc)%Q) /\
  (term <> EmptyString -> JsString.Substring term (haystack st doc)).
Proof.
  unfold keeps.
  destruct (String.eqb_spec (factionFilter st) "all") as [Hall|Hall];
    destruct (String.eqb_spec (DocumentRecord.factionTag doc) (factionFilter st)) as [Htag|Htag];
    cbn [negb andb];
    try (split; [discriminate | intros [H _]; exfalso; auto]);
    (destruct (showCanonOnly st); cbn [andb];
     [ destruct (Qltb (DocumentRecord.canonWeight doc) 0.7) eqn:Hw;
       [ split; [discriminate | intros [_ [H _]]; exfalso];
         specialize (H eq_refl); apply Qltb_false in H; congruence
       | apply Qltb_false in Hw ]
     | ];
     (destruct (JsString.is_empty term) eqn:Hterm;
      [ apply is_empty_true in Hterm; subst term;
        split; [intros _ | reflexivity];
        repeat split; try tauto; try congruence
      | rewrite includes_spec;
        assert (term <> EmptyString)
          by (intros ->; discriminate);
        split; [intros Hs; repeat split; try tauto; try congruence | intros [_ [_ Hs]]; auto] ])).
Qed.

(** The author of a document resolves to the first agent with that id. *)
Lemma authorName_resolved (st : LibraryViewState) (doc : DocumentRecord.t)
      (before : list Agent.t) (agent : Agent.t) (after : list Agent.t) :
  agents st = (before ++ agent :: after)%list ->
  Agent.id agent = DocumentRecord.authorId doc ->
  (forall a, In a before -> Agent.id a <> DocumentRecord.authorId doc) ->
  authorName st doc = Agent.name agent.
Proof.
  unfold authorName. intros -> Hid. induction before as [|b before IH]; intros Hno; simpl.
  - rewrite <- Hid, String.eqb_refl. reflexivity.
  - destruct (String.eqb_spec (Agent.id b) (DocumentRecord.authorId doc)) as [Heq|_].
    + exfalso. apply (Hno b); [now left | exact Heq].
    + apply IH. intros a Ha. apply Hno. now right.
Qed.

(** A dangling author id resolves to the empty name. *)
Lemma authorName_unresolved (st : LibraryViewState) (doc : DocumentRecord.t) :
  (forall a, In a (agents st) -> Agent.id a <> DocumentRecord.authorId doc) ->
  authorName st doc = EmptyString.
Proof.
  unfold authorName. induction (agents st) as [|b l IH]; intros Hno; simpl.
  - reflexivity.
  - destruct (String.eqb_spec (Agent.id b) (DocumentRecord.authorId doc)) as [Heq|_].
    + exfalso. apply (Hno b); [now left | exact Heq].
    + apply IH. intros a Ha. apply Hno. now right.
Qed.

Lemma find_by_id_split (ags : list Agent.t) (authorId : string) :
  match JsArray.find (fun a => String.eqb (Agent.id a) authorId) ags with
  | Some agent =>
      exists before rest,
        ags = (before ++ agent :: rest)%list /\
        Agent.id agent = authorId /\
        forall a, In a before -> Agent.id a <> authorId
  | None => forall a, In a ags -> Agent.id a <> authorId
  end.
Proof.
  induction ags as [|b ags IH]; cbn [JsArray.find].
  - intros a [].
  - destruct (String.eqb_spec (Agent.id b) authorId) as [Heq|Hne].
    + exists [], ags. repeat split; [exact Heq | intros a []].
    + destruct (JsArray.find _ ags) as [agent|].
      * destruct IH as [before [rest [-> [Hid Hno]]]].
        exists (b :: before), rest. repeat split; [exact Hid|].
        intros a [<-|Ha]; [exact Hne | now apply Hno].
      * intros a [<-|Ha]; [exact Hne | now apply IH].
Qed.

(** The getter resolves the author as the specification words it. *)
Lemma authorName_is (st : LibraryViewState) (doc : DocumentRecord.t) :
  AuthorNameIs (agents st) (DocumentRecord.authorId doc) (authorName st doc).
Proof.
  unfold authorName.
  pose proof (find_by_id_split (agents st) (DocumentRecord.authorId doc)) as H.
  destruct (JsArray.find _ (agents st)) as [agent|].
  - destruct H as [before [rest [Hags [Hid Hno]]]].
    now apply (author_found _ _ before agent rest).
  - now apply author_dangling.
Qed.

(** The author's name of the specification is the one the getter searches. *)
Lemma AuthorNameIs_authorName (st : LibraryViewState) (doc : DocumentRecord.t)
      (name : string) :
  AuthorNameIs (agents st) (DocumentRecord.authorId doc) name ->
  name = authorName st doc.
Proof.
  intros [before agent rest Hags Hid Hno | Hno]; symmetry.
  - now apply (authorName_resolved st doc before agent rest).
  - now apply authorName_unresolved.
Qed.

(** C1: a document is in the output of [filteredDocuments] exactly when it is
    one of the documents of the view state and passes the three conditions:
    the faction filter is "all" or equals its faction tag; canon-only is off
    or its canon weight is at least 0.7; the trimmed, lower-cased search term
    is empty or occurs in the lower-cased text made of its title, its text
    and its author's name, joined by single spaces, the author's name being
    the name of the first agent whose id is the author id of the document,
    or the empty string when no agent has that id. *)
Theorem filteredDocuments_sound_complete
        (st : LibraryViewState) (doc : DocumentRecord.t) :
  In doc (filteredDocuments st) <->
  In doc (documents st) /\
  (factionFilter st <> "all" -> DocumentRecord.factionTag doc = factionFilter st) /\
  (showCanonOnly st = true -> (0.7 <= DocumentRecord.canonWeight doc)%Q) /\
  (JsString.toLowerCase (JsString.trim (searchTerm st)) <> EmptyString ->
   exists author : string,
     AuthorNameIs (agents st) (DocumentRecord.authorId doc) author /\
     JsString.Substring
       (JsString.toLowerCase (JsString.trim (searchTerm st)))
       (JsString.toLowerCase
          (DocumentRecord.title doc ++ " " ++ DocumentRecord.text doc ++ " " ++ author))).
Proof.
  unfold filteredDocuments. cbv zeta.
  rewrite array_sort_In, array_filter_In, keeps_spec.
  change (haystack st doc)
    with (JsString.toLowerCase
            (DocumentRecord.title doc ++ " " ++ DocumentRecord.text doc ++ " "
             ++ authorName st doc)).
  change (normalizedTerm st) with (JsString.toLowerCase (JsString.trim (searchTerm st))).
  split.
  - intros [Hdoc [Hfaction [Hcanon Hterm]]].
    repeat (split; [assumption|]). intros Hne.
    exists (authorName st doc). split; [apply authorName_is | now apply Hterm].
  - intros [Hdoc [Hfaction [Hcanon Hterm]]].
    repeat (split; [assumption|]). intros Hne.
    destruct (Hterm Hne) as [author [Hauthor Hsub]].
    now rewrite <- (AuthorNameIs_authorName st doc author Hauthor).
Qed.

(** C2: the output of [filteredDocuments] is in descending order of
    timestamp: every document in it is at least as recent as every document
    after it.  Documents filed at the same instant keep the order they have
    in the filtered input (the sort is stable). *)
Theorem filteredDocuments_descending (st : LibraryViewState) :
  StronglySorted notOlder (filteredDocuments st) /\
  forall t : Z,
    filedAt t (filteredDocuments st) =
    filedAt t (JsArray.filter (keeps st (normalizedTerm st)) (documents st)).
Proof.
  split.
  - apply sort_byRecency_sorted.
  - intros t. apply sort_byRecency_stable.
Qed.

(** *** The canon-only scenario on the fixtures *)

(** C3, as stated, fails: with every clock reading equal to 1700000000000 the
    output of the canon-only scenario is not [[d_origin_sky; d_aurora_accord]]. *)
Lemma canonOnly_not_origin_first :
  filteredDocuments
    (canonOnlyView
       (primeDocuments 1700000000000 1700000000000 1700000000000
                       1700000000000 1700000000000)
       (Some "d_origin_sky"))
  <> [d_origin_sky 1700000000000; d_aurora_accord 1700000000000].
Proof.
  vm_compute. intros H. discriminate H.
Qed.

(** C3, amended: in the canon-only scenario on the fixtures (no faction
    filter, empty search term), provided the clock did not run backwards
    between the first two document literals, the output holds only
    documents of canon weight at least 0.7 and is exactly
    [[d_aurora_accord; d_origin_sky]], which is the descending order of
    timestamp: the accord is 61 days old, the hymn 92. *)
Theorem canonOnly_fixture_output
        (now0 now1 now2 now3 now4 : Z) (active : option string) :
  now0 <= now1 ->
  let out :=
    filteredDocuments (canonOnlyView (primeDocuments now0 now1 now2 now3 now4) active) in
  out = [d_aurora_accord now1; d_origin_sky now0] /\
  Forall (fun d => (0.7 <= DocumentRecord.canonWeight d)%Q) out /\
  StronglySorted notOlder out.
Proof.
  intros Hclock out.
  assert (Hout : out = [d_aurora_accord now1; d_origin_sky now0]).
  { subst out. unfold filteredDocuments. cbv zeta.
    change (normalizedTerm (canonOnlyView (primeDocuments now0 now1 now2 now3 now4) active))
      with EmptyString.
    change (JsArray.filter _ _) with [d_origin_sky now0; d_aurora_accord now1].
    change (JsArray.sort byRecency [d_origin_sky now0; d_aurora_accord now1])
      with (if byRecency (d_origin_sky now0) (d_aurora_accord now1) <=? 0
            then [d_origin_sky now0; d_aurora_accord now1]
            else [d_aurora_accord now1; d_origin_sky now0]).
    destruct (Z.leb_spec (byRecency (d_origin_sky now0) (d_aurora_accord now1)) 0) as [H|H];
      [|reflexivity].
    exfalso. revert H. unfold byRecency. cbn [DocumentRecord.timestamp d_origin_sky d_aurora_accord].
    unfold day_ms. lia. }
  split; [exact Hout|]. split.
  - rewrite Hout. repeat constructor; vm_compute; discriminate.
  - subst out. apply sort_byRecency_sorted.
Qed.

Lemma canonOnly_fixture_output_witness :
  1700000000000 <= 1700000000007 /\
  filteredDocuments
    (canonOnlyView
       (primeDocuments 1700000000000 1700000000007 1700000000007
                       1700000000008 1700000000008)
       (Some "d_origin_sky"))
  = [d_aurora_accord 1700000000007; d_origin_sky 1700000000000].
Proof.
  split; [lia|].
  apply (canonOnly_fixture_output 1700000000000 1700000000007 1700000000007
           1700000000008 1700000000008 (Some "d_origin_sky")).
  lia.
Defined.

(** ** The settings store *)

Section StoreProperties.

Variable JSON_parse : string -> completion json.
Variable JSON_stringify : json -> string.
Variable body : Subscriber -> T -> completion unit.

Local Abbreviation read := (LocalStorageStore.read JSON_parse).
Local Abbreviation write := (LocalStorageStore.write JSON_stringify body).
Local Abbreviation invoke := (LocalStorageStore.invoke body).

Lemma after_calls_nil (w : World) : after_calls w [] = w.
Proof. destruct w. unfold after_calls. simpl. now rewrite app_nil_r. Qed.

Lemma after_calls_app (w : World) (c1 c2 : list (Subscriber * T)) :
  after_calls (after_calls w c1) c2 = after_calls w (c1 ++ c2)%list.
Proof. unfold after_calls. simpl. now rewrite app_assoc. Qed.

Lemma forEach_invoke (value : T) (subs : list Subscriber) (w : World) :
  forEach subs (invoke value) w =
  (notified body value subs,
   after_calls w (map (fun s => (s, value)) (reached body value subs))).
Proof.
  revert w. induction subs as [|s subs IH]; intros w.
  - simpl. unfold ret. now rewrite after_calls_nil.
  - cbn [forEach reached notified]. unfold bind.
    unfold LocalStorageStore.invoke at 1.
    destruct (body s value) as [[]|e].
    + rewrite IH. f_equal.
      change (mkWorld (localStorage w) (console w) (invocations w ++ [(s, value)])%list)
        with (after_calls w [(s, value)]).
      now rewrite after_calls_app.
    + reflexivity.
Qed.

Lemma reached_all (value : T) (subs : list Subscriber) :
  Forall (fun s => body s value = Normal tt) subs ->
  reached body value subs = subs /\ notified body value subs = Normal tt.
Proof.
  induction 1 as [|s subs Hs _ [IH1 IH2]]; simpl; [easy|].
  rewrite Hs, IH1, IH2. easy.
Qed.

Lemma reached_prefix (value : T) (subs : list Subscriber) :
  exists rest, subs = (reached body value subs ++ rest)%list.
Proof.
  induction subs as [|s subs [rest IH]]; simpl.
  - now exists [].
  - destruct (body s value).
    + exists rest. simpl. now rewrite <- IH.
    + now exists subs.
Qed.

Lemma write_unfold (store : LocalStorageStore.t) (value : T) (w : World) :
  write store value w =
  match setItem_denied (localStorage w) (LocalStorageStore.key store)
                       (JSON_stringify (JObject value)) with
  | Some e => (Throw e, w)
  | None =>
      (notified body value (LocalStorageStore.subscribers store),
       after_calls
         (after_store w (LocalStorageStore.key store) (JSON_stringify (JObject value)))
         (map (fun s => (s, value))
              (reached body value (LocalStorageStore.subscribers store))))
  end.
Proof.
  unfold LocalStorageStore.write, bind, setItem.
  destruct (setItem_denied _ _ _); [reflexivity|].
  now rewrite forEach_invoke.
Qed.

Lemma read_unfold (store : LocalStorageStore.t) (w : World) :
  read store w =
  match getItem_denied (localStorage w) with
  | Some e => (Normal LocalStorageStore.TheDefault,
               after_warning w (LocalStorageStore.key store) e)
  | None =>
      match items (localStorage w) !! LocalStorageStore.key store with
      | None => (Normal LocalStorageStore.TheDefault, w)
      | Some text =>
          if JsString.is_empty text then (Normal LocalStorageStore.TheDefault, w)
          else match JSON_parse text with
               | Normal parsed =>
                   (Normal (LocalStorageStore.Fresh
                              (objectSpread (LocalStorageStore.defaultValue store) parsed)), w)
               | Throw e => (Normal LocalStorageStore.TheDefault,
                             after_warning w (LocalStorageStore.key store) e)
               end
      end
  end.
Proof.
  unfold LocalStorageStore.read, try_catch, bind, getItem.
  destruct (getItem_denied (localStorage w)); [reflexivity|].
  destruct (items (localStorage w) !! LocalStorageStore.key store) as [text|]; [|reflexivity].
  destruct (JsString.is_empty text); [reflexivity|].
  unfold LocalStorageStore.parse. destruct (JSON_parse text); reflexivity.
Qed.

Lemma objectSpread_lookup (target : T) (source : json) (k : string) :
  objectSpread target source !! k =
  match copyDataProperties source !! k with
  | Some x => Some x
  | None => target !! k
  end.
Proof.
  unfold objectSpread. rewrite lookup_union.
  destruct (copyDataProperties source !! k), (target !! k); reflexivity.
Qed.

Lemma reached_In (value : T) (subs : list Subscriber) (s : Subscriber) :
  In s (reached body value subs) -> In s subs.
Proof.
  destruct (reached_prefix value subs) as [rest H]. intros Hs.
  rewrite H. apply in_or_app. now left.
Qed.

(** C5: [read] never raises.  It returns the default object itself, and
    leaves the world as it was, when the entry is absent or empty; it returns
    the default object itself, and logs one warning, when the access to the
    storage raises or when the parse of the stored text raises (invalid
    content); otherwise it returns a new object in which every property of
    the parsed value is present with the persisted value and every other
    property of the default is present with the default's value. *)
Theorem read_never_raises (store : LocalStorageStore.t) (w : World) :
  exists (r : LocalStorageStore.Returned) (w' : World),
    read store w = (Normal r, w') /\
    localStorage w' = localStorage w /\
    (forall e, getItem_denied (localStorage w) = Some e ->
       r = LocalStorageStore.TheDefault /\
       w' = after_warning w (LocalStorageStore.key store) e) /\
    (getItem_denied (localStorage w) = None ->
     match items (localStorage w) !! LocalStorageStore.key store with
     | None => r = LocalStorageStore.TheDefault /\ w' = w
     | Some text =>
         if JsString.is_empty text
         then r = LocalStorageStore.TheDefault /\ w' = w
         else match JSON_parse text with
              | Throw e =>
                  r = LocalStorageStore.TheDefault /\
                  w' = after_warning w (LocalStorageStore.key store) e
              | Normal parsed =>
                  w' = w /\
                  exists merged : T,
                    r = LocalStorageStore.Fresh merged /\
                    forall k : string,
                      merged !! k =
                      match copyDataProperties parsed !! k with
                      | Some persisted => Some persisted
                      | None => LocalStorageStore.defaultValue store !! k
                      end
              end
     end).
Proof.
  rewrite read_unfold.
  destruct (getItem_denied (localStorage w)) as [e|] eqn:Hget.
  - eexists _, _. split; [reflexivity|]. split; [reflexivity|].
    split; [|discriminate]. intros e' [= <-]. easy.
  - destruct (items (localStorage w) !! LocalStorageStore.key store) as [text|].
    2:{ eexists _, _. split; [reflexivity|]. repeat split; try discriminate. }
    destruct (JsString.is_empty text).
    { eexists _, _. split; [reflexivity|]. repeat split; try discriminate. }
    destruct (JSON_parse text) as [parsed|e].
    + eexists _, _. split; [reflexivity|]. split; [reflexivity|].
      split; [discriminate|]. intros _. split; [reflexivity|].
      eexists. split; [reflexivity|]. intros k. apply objectSpread_lookup.
    + eexists _, _. split; [reflexivity|]. repeat split; try discriminate.
Qed.

(** C6: after [write S] on a storage that takes the text of [S] and can be
    read back, [S] surviving the host's JSON round trip as a non-empty text,
    [read] returns [S] merged over the default; and returns [S] itself, as a
    value, when [S] has every property of the default. *)
Theorem write_then_read (store : LocalStorageStore.t) (S : T) (w : World) :
  setItem_denied (localStorage w) (LocalStorageStore.key store)
                 (JSON_stringify (JObject S)) = None ->
  getItem_denied (localStorage w) = None ->
  JSON_parse (JSON_stringify (JObject S)) = Normal (JObject S) ->
  JsString.is_empty (JSON_stringify (JObject S)) = false ->
  exists (r : LocalStorageStore.Returned) (w' : World),
    read store (snd (write store S w)) = (Normal r, w') /\
    LocalStorageStore.value_of store r
      = objectSpread (LocalStorageStore.defaultValue store) (JObject S) /\
    (forall k : string,
       LocalStorageStore.value_of store r !! k =
       match S !! k with
       | Some x => Some x
       | None => LocalStorageStore.defaultValue store !! k
       end) /\
    (dom (LocalStorageStore.defaultValue store) ⊆ dom S ->
     LocalStorageStore.value_of store r = S).
Proof.
  intros Hset Hget Hround Hnonempty.
  rewrite write_unfold, Hset. cbn [snd].
  rewrite read_unfold. cbn [after_calls after_store localStorage getItem_denied items].
  rewrite Hget, lookup_insert_eq, Hnonempty, Hround.
  eexists _, _. split; [reflexivity|]. cbn [LocalStorageStore.value_of].
  split; [reflexivity|]. split.
  - intros k. apply (objectSpread_lookup _ (JObject S)).
  - intros Hdom. unfold objectSpread. cbn [copyDataProperties].
    apply map_eq. intros k. rewrite lookup_union.
    destruct (S !! k) as [x|] eqn:HS.
    + now destruct (LocalStorageStore.defaultValue store !! k).
    + assert (LocalStorageStore.defaultValue store !! k = None) as ->; [|reflexivity].
      apply not_elem_of_dom. intros Hk. apply Hdom in Hk.
      apply elem_of_dom in Hk. rewrite HS in Hk. now destruct Hk.
Qed.

Lemma reached_throw (value : T) (before : list Subscriber) (s : Subscriber)
      (rest : list Subscriber) (e : exn) :
  Forall (fun s => body s value = Normal tt) before ->
  body s value = Throw e ->
  reached body value (before ++ s :: rest) = (before ++ [s])%list /\
  notified body value (before ++ s :: rest) = Throw e.
Proof.
  intros Hbefore Hs. induction Hbefore as [|b before Hb _ [IH1 IH2]]; simpl.
  - now rewrite Hs.
  - now rewrite Hb, IH1, IH2.
Qed.

(** C7, amended: when the storage takes the text, [write v] makes the stored
    entry the text of [v] alone, whatever was stored before, and then calls
    the registered subscribers with [v], in the order of registration, one
    call per registration: all of them, and [write] returns, when no body
    throws; those up to and including the first whose body throws, and
    [write] throws what that body threw, otherwise. *)
Theorem write_overwrites_then_notifies
        (store : LocalStorageStore.t) (v : T) (w : World) :
  setItem_denied (localStorage w) (LocalStorageStore.key store)
                 (JSON_stringify (JObject v)) = None ->
  let w' := snd (write store v w) in
  items (localStorage w') !! LocalStorageStore.key store
    = Some (JSON_stringify (JObject v)) /\
  (forall k, k <> LocalStorageStore.key store ->
     items (localStorage w') !! k = items (localStorage w) !! k) /\
  (Forall (fun s => body s v = Normal tt) (LocalStorageStore.subscribers store) ->
   fst (write store v w) = Normal tt /\
   invocations w' =
     (invocations w ++ map (fun s => (s, v)) (LocalStorageStore.subscribers store))%list) /\
  (forall (before : list Subscriber) (s : Subscriber) (rest : list Subscriber) (e : exn),
     LocalStorageStore.subscribers store = (before ++ s :: rest)%list ->
     Forall (fun s => body s v = Normal tt) before ->
     body s v = Throw e ->
     fst (write store v w) = Throw e /\
     invocations w' =
       (invocations w ++ map (fun s => (s, v)) (before ++ [s]))%list).
Proof.
  intros Hset w'. subst w'. rewrite write_unfold, Hset. cbn [fst snd].
  cbn [after_calls after_store localStorage items invocations].
  split; [apply lookup_insert_eq|].
  split; [intros k Hk; now apply lookup_insert_ne|].
  split.
  - intros Hall. destruct (reached_all v _ Hall) as [-> ->]. easy.
  - intros before s rest e -> Hbefore Hs.
    destruct (reached_throw v before s rest e Hbefore Hs) as [-> ->]. easy.
Qed.

(** C10: when the storage refuses the text of [v] by raising, [write v]
    raises the same exception, calls no subscriber and leaves the stored
    entries, and the rest of the world, as they were. *)
Theorem write_refused (store : LocalStorageStore.t) (v : T) (w : World) (e : exn) :
  setItem_denied (localStorage w) (LocalStorageStore.key store)
                 (JSON_stringify (JObject v)) = Some e ->
  write store v w = (Throw e, w).
Proof.
  intros Hset. now rewrite write_unfold, Hset.
Qed.

Lemma filter_sublist {A} (p : A -> bool) (l : list A) :
  sublist (JsArray.filter p l) l.
Proof.
  induction l as [|x l IH]; simpl.
  - constructor.
  - destruct (p x); now constructor.
Qed.

Lemma filter_count_occ (f g : Subscriber) (l : list Subscriber) :
  g <> f ->
  count_occ Nat.eq_dec (JsArray.filter (fun fn => negb (Nat.eqb fn f)) l) g
  = count_occ Nat.eq_dec l g.
Proof.
  intros Hg. induction l as [|x l IH]; simpl; [reflexivity|].
  destruct (Nat.eqb_spec x f) as [->|Hx]; simpl.
  - destruct (Nat.eq_dec f g); [congruence | exact IH].
  - destruct (Nat.eq_dec x g); now rewrite IH.
Qed.

Lemma filter_idempotent {A} (p : A -> bool) (l : list A) :
  JsArray.filter p (JsArray.filter p l) = JsArray.filter p l.
Proof.
  induction l as [|x l IH]; simpl; [reflexivity|].
  destruct (p x) eqn:Hx; simpl; [rewrite Hx, IH|]; easy.
Qed.

Lemma unsubscribe_not_In (handle : LocalStorageStore.Unsubscribe)
      (store : LocalStorageStore.t) :
  ~ In (LocalStorageStore.captured handle)
       (LocalStorageStore.subscribers (LocalStorageStore.unsubscribe handle store)).
Proof.
  cbn [LocalStorageStore.unsubscribe LocalStorageStore.subscribers].
  rewrite array_filter_In. intros [_ H]. now rewrite Nat.eqb_refl in H.
Qed.

Lemma reached_snoc (value : T) (subs : list Subscriber) (f : Subscriber) :
  Forall (fun s => body s value = Normal tt) subs ->
  reached body value (subs ++ [f]) = (subs ++ [f])%list.
Proof.
  induction 1 as [|s subs Hs _ IH]; simpl.
  - now destruct (body f value).
  - now rewrite Hs, IH.
Qed.

(** C8, amended: [subscribe f] appends [f] to the subscribers, so that a later
    [write] whose storage access and earlier subscribers do not raise calls
    [f] with the written value.  Calling the returned handle, on whatever the
    store has become, leaves no registration of [f], keeps every
    registration of every other callback, in order, and changes nothing
    else; calling it again changes nothing; and a [write] after it makes no
    call to [f]. *)
Theorem subscribe_unsubscribe (store : LocalStorageStore.t) (f : Subscriber) :
  let store1 := fst (LocalStorageStore.subscribe store f) in
  let handle := snd (LocalStorageStore.subscribe store f) in
  LocalStorageStore.subscribers store1 = (LocalStorageStore.subscribers store ++ [f])%list /\
  (forall (v : T) (w : World),
     setItem_denied (localStorage w) (LocalStorageStore.key store1)
                    (JSON_stringify (JObject v)) = None ->
     Forall (fun s => body s v = Normal tt) (LocalStorageStore.subscribers store) ->
     invocations (snd (write store1 v w)) =
       (invocations w
        ++ map (fun s => (s, v)) (LocalStorageStore.subscribers store)
        ++ [(f, v)])%list) /\
  forall later : LocalStorageStore.t,
    let store2 := LocalStorageStore.unsubscribe handle later in
    ~ In f (LocalStorageStore.subscribers store2) /\
    (forall g, g <> f ->
       count_occ Nat.eq_dec (LocalStorageStore.subscribers store2) g
       = count_occ Nat.eq_dec (LocalStorageStore.subscribers later) g) /\
    sublist (LocalStorageStore.subscribers store2) (LocalStorageStore.subscribers later) /\
    LocalStorageStore.key store2 = LocalStorageStore.key later /\
    LocalStorageStore.defaultValue store2 = LocalStorageStore.defaultValue later /\
    LocalStorageStore.unsubscribe handle store2 = store2 /\
    (forall (v : T) (w : World),
       exists calls : list (Subscriber * T),
         invocations (snd (write store2 v w)) = (invocations w ++ calls)%list /\
         forall v' : T, ~ In (f, v') calls).
Proof.
  cbn zeta. cbn [LocalStorageStore.subscribe fst snd LocalStorageStore.subscribers
                 LocalStorageStore.key].
  split; [reflexivity|]. split.
  - intros v w Hset Hall. rewrite write_unfold.
    cbn [LocalStorageStore.key LocalStorageStore.subscribers]. rewrite Hset. cbn [snd].
    cbn [after_calls invocations after_store].
    rewrite (reached_snoc v _ f Hall), map_app. reflexivity.
  - intros later. cbn zeta.
    split; [apply (unsubscribe_not_In (LocalStorageStore.mkUnsubscribe f))|].
    split; [intros g Hg; now apply filter_count_occ|].
    split; [apply filter_sublist|].
    split; [reflexivity|]. split; [reflexivity|].
    split.
    + unfold LocalStorageStore.unsubscribe.
      cbn [LocalStorageStore.subscribers LocalStorageStore.key
           LocalStorageStore.defaultValue LocalStorageStore.captured].
      now rewrite filter_idempotent.
    + intros v w. rewrite write_unfold.
      destruct (setItem_denied _ _ _).
      * exists []. cbn [snd]. split; [now rewrite app_nil_r|]. intros v' [].
      * eexists. cbn [snd after_calls invocations after_store].
        split; [reflexivity|].
        intros v' Hin. apply in_map_iff in Hin. destruct Hin as [s [[= -> _] Hs]].
        apply reached_In in Hs.
        now apply (unsubscribe_not_In (LocalStorageStore.mkUnsubscribe f) later).
Qed.

End StoreProperties.

(** ** [refreshArchiveList] *)

Lemma refreshDocumentView_state (app : InfiniteLibraryApp) :
  state (refreshDocumentView app) = state app.
Proof.
  unfold refreshDocumentView. now destruct (detailContainerEl app).
Qed.

(** What [refreshArchiveList] does to the active document id. *)
Lemma refreshArchiveList_activeDocumentId (app : InfiniteLibraryApp) :
  activeDocumentId (state (refreshArchiveList app)) =
  match archiveListEl app with
  | None => activeDocumentId (state app)
  | Some _ =>
      match filteredDocuments (state app) with
      | [] => activeDocumentId (state app)
      | first :: _ =>
          if JsArray.some (isActive (activeDocumentId (state app)))
                          (filteredDocuments (state app))
          then activeDocumentId (state app)
          else Some (DocumentRecord.id first)
      end
  end.
Proof.
  unfold refreshArchiveList.
  destruct (archiveListEl app); [|reflexivity].
  destruct (filteredDocuments (state app)) as [|first rest] eqn:Hdocs.
  - cbn [length Nat.eqb]. now rewrite refreshDocumentView_state.
  - cbn [length Nat.eqb].
    destruct (JsArray.some _ (first :: rest)); cbn [negb].
    + reflexivity.
    + now rewrite refreshDocumentView_state.
Qed.

(** The active id is among the ids of the visible documents. *)
Lemma some_isActive (active : option string) (docs : list DocumentRecord.t) :
  JsArray.some (isActive active) docs = true <->
  exists d, In d docs /\ active = Some (DocumentRecord.id d).
Proof.
  rewrite array_some_true. unfold isActive.
  split; intros [d [Hd H]]; exists d; (split; [exact Hd|]).
  - destruct active as [a|]; [|discriminate]. apply String.eqb_eq in H. now subst.
  - subst active. apply String.eqb_refl.
Qed.

(** When documents remain visible, the active id is kept if one of them has
    it, and becomes the id of the first of them otherwise. *)
Lemma refreshArchiveList_reselects
      (app : InfiniteLibraryApp) (first : DocumentRecord.t) (rest : list DocumentRecord.t) :
  archiveListEl app <> None ->
  filteredDocuments (state app) = first :: rest ->
  ((exists d, In d (first :: rest) /\ activeDocumentId (state app) = Some (DocumentRecord.id d)) ->
   activeDocumentId (state (refreshArchiveList app)) = activeDocumentId (state app)) /\
  (~ (exists d, In d (first :: rest) /\ activeDocumentId (state app) = Some (DocumentRecord.id d)) ->
   activeDocumentId (state (refreshArchiveList app)) = Some (DocumentRecord.id first)).
Proof.
  intros Hel Hdocs. rewrite refreshArchiveList_activeDocumentId, Hdocs.
  destruct (archiveListEl app); [|congruence].
  rewrite <- some_isActive.
  destruct (JsArray.some _ _); split; intros H; congruence.
Qed.

(** When no document remains visible, the early return leaves the active id
    as it was. *)
Lemma refreshArchiveList_empty_keeps (app : InfiniteLibraryApp) :
  filteredDocuments (state app) = [] ->
  activeDocumentId (state (refreshArchiveList app)) = activeDocumentId (state app).
Proof.
  intros Hdocs. rewrite refreshArchiveList_activeDocumentId, Hdocs.
  now destruct (archiveListEl app).
Qed.

(** C4, at the failing input: searching the fixtures for "zzz" leaves no
    visible document, the active id "d_origin_sky" is not among the visible
    ones, and yet after [refreshArchiveList] the active id is still
    "d_origin_sky", not null, and the detail pane still shows that document
    beside the empty list. *)
Theorem refreshArchiveList_empty_not_reset :
  filteredDocuments (state searchingApp) = [] /\
  activeDocumentId (state searchingApp) = Some "d_origin_sky" /\
  activeDocumentId (state (refreshArchiveList searchingApp)) = Some "d_origin_sky" /\
  archiveListEl (refreshArchiveList searchingApp) = Some [EmptyState] /\
  detailContainerEl (refreshArchiveList searchingApp) = Some (DocumentDetail "d_origin_sky").
Proof.
  vm_compute. repeat split.
Qed.

(** ** The getter on the heap *)

Section HeapProperties.

Implicit Types (h : gmap positive Heap.object) (l r arr : positive).

(** [refs] refer, in [h], to the documents [docs], element by element. *)
Local Abbreviation refer h refs docs :=
  (Forall2 (fun l d => Heap.documentAt h l = Some d) refs docs).

Lemma filter_refer h (p : DocumentRecord.t -> bool) refs docs :
  refer h refs docs ->
  refer h
    (JsArray.filter
       (fun l => match Heap.documentAt h l with Some d => p d | None => false end) refs)
    (JsArray.filter p docs).
Proof.
  induction 1 as [|l d refs docs Hl _ IH]; simpl; [constructor|].
  rewrite Hl. destruct (p d); [constructor|]; assumption.
Qed.

Lemma insert_refer h (cmp : DocumentRecord.t -> DocumentRecord.t -> Z) l d refs docs :
  Heap.documentAt h l = Some d ->
  refer h refs docs ->
  refer h
    (JsArray.insert
       (fun a b => match Heap.documentAt h a, Heap.documentAt h b with
                   | Some x, Some y => cmp x y
                   | _, _ => 0
                   end) l refs)
    (JsArray.insert cmp d docs).
Proof.
  intros Hl. induction 1 as [|l' d' refs docs Hl' Hrest IH]; simpl.
  - repeat constructor. exact Hl.
  - rewrite Hl, Hl'. destruct (cmp d d' <=? 0); repeat constructor; assumption.
Qed.

Lemma sort_refer h (cmp : DocumentRecord.t -> DocumentRecord.t -> Z) refs docs :
  refer h refs docs ->
  refer h
    (JsArray.sort
       (fun a b => match Heap.documentAt h a, Heap.documentAt h b with
                   | Some x, Some y => cmp x y
                   | _, _ => 0
                   end) refs)
    (JsArray.sort cmp docs).
Proof.
  induction 1 as [|l d refs docs Hl _ IH]; simpl; [constructor|].
  now apply insert_refer.
Qed.

(** Allocation at an unused address changes no lookup of a record. *)
Lemma documentAt_alloc h r (o : Heap.object) l d :
  h !! r = None -> Heap.documentAt h l = Some d ->
  Heap.documentAt (<[r := o]> h) l = Some d.
Proof.
  unfold Heap.documentAt. intros Hr Hl.
  rewrite lookup_insert_ne; [exact Hl|]. intros <-. now rewrite Hr in Hl.
Qed.

Lemma elementsAt_inv {A} (at_ : gmap positive Heap.object -> positive -> option A)
      h arr (xs : list A) :
  Heap.elementsAt at_ h arr = Some xs ->
  exists refs, h !! arr = Some (Heap.Array refs) /\ mapM (at_ h) refs = Some xs.
Proof.
  unfold Heap.elementsAt. destruct (h !! arr) as [[| |refs|]|]; try discriminate.
  intros H. now exists refs.
Qed.

Lemma resolve_inv (this_state : positive) h (st : LibraryViewState) :
  Heap.resolve this_state h = Some st ->
  exists s,
    h !! this_state = Some (Heap.State s) /\
    Heap.elementsAt Heap.documentAt h (Heap.documents_ref s) = Some (documents st) /\
    Heap.elementsAt Heap.agentAt h (Heap.agents_ref s) = Some (agents st) /\
    st = mkView (documents st) (agents st) (Heap.activeDocumentId s)
                (Heap.searchTerm s) (Heap.factionFilter s) (Heap.showCanonOnly s).
Proof.
  unfold Heap.resolve. intros H.
  destruct (h !! this_state) as [[| | |s]|] eqn:Hs; try discriminate.
  destruct (Heap.elementsAt Heap.documentAt h _) as [docs|] eqn:Hd; try discriminate.
  destruct (Heap.elementsAt Heap.agentAt h _) as [ags|] eqn:Ha; try discriminate.
  injection H as <-. now exists s.
Qed.

(** A heap that only gained objects resolves as before. *)
Lemma resolve_extend (this_state : positive) h h' (st : LibraryViewState) :
  (forall l o, h !! l = Some o -> h' !! l = Some o) ->
  Heap.resolve this_state h = Some st ->
  Heap.resolve this_state h' = Some st.
Proof.
  intros Hext Hres. destruct (resolve_inv _ _ _ Hres) as [s [Hs [Hd [Ha Hst]]]].
  destruct (elementsAt_inv _ _ _ _ Hd) as [drefs [Hdarr Hdm]].
  destruct (elementsAt_inv _ _ _ _ Ha) as [arefs [Haarr Ham]].
  unfold Heap.resolve, Heap.elementsAt.
  rewrite (Hext _ _ Hs), (Hext _ _ Hdarr), (Hext _ _ Haarr).
  assert (mapM (Heap.documentAt h') drefs = Some (documents st)) as ->.
  { apply mapM_Some. apply mapM_Some in Hdm.
    eapply Forall2_impl; [exact Hdm|]. intros l d. unfold Heap.documentAt.
    destruct (h !! l) as [o|] eqn:Hl; [|discriminate]. now rewrite (Hext _ _ Hl). }
  assert (mapM (Heap.agentAt h') arefs = Some (agents st)) as ->.
  { apply mapM_Some. apply mapM_Some in Ham.
    eapply Forall2_impl; [exact Ham|]. intros l d. unfold Heap.agentAt.
    destruct (h !! l) as [o|] eqn:Hl; [|discriminate]. now rewrite (Hext _ _ Hl). }
  now rewrite <- Hst.
Qed.

(** C9: the getter changes no object of the heap it starts from: the
    documents array, the agents array, every document record and the state
    object are as before, and the view state resolves as before.  The array
    it returns is newly allocated, so it is not the documents array; its
    elements are references taken from the documents array, and they refer
    to the filtered and sorted documents. *)
Theorem filteredDocuments_frame (this_state : positive) h (st : LibraryViewState) :
  Heap.resolve this_state h = Some st ->
  exists (r : positive) (out : list positive) (h' : gmap positive Heap.object),
    Heap.filteredDocuments this_state h = Some (r, h') /\
    h !! r = None /\
    h' = <[r := Heap.Array out]> h /\
    (forall l o, h !! l = Some o -> h' !! l = Some o) /\
    (forall s, h !! this_state = Some (Heap.State s) ->
       r <> Heap.documents_ref s /\
       forall refs, h !! Heap.documents_ref s = Some (Heap.Array refs) ->
                    forall l, In l out -> In l refs) /\
    Heap.elementsAt Heap.documentAt h' r = Some (filteredDocuments st) /\
    Heap.resolve this_state h' = Some st.
Proof.
  intros Hres. destruct (resolve_inv _ _ _ Hres) as [s [Hs [Hd [Ha Hst]]]].
  destruct (elementsAt_inv _ _ _ _ Hd) as [drefs [Hdarr Hdm]].
  apply mapM_Some in Hdm.
  set (r := fresh (dom h)).
  assert (Hr : h !! r = None) by (apply not_elem_of_dom, is_fresh).
  set (term := normalizedTerm st).
  set (kept := JsArray.filter
                 (fun l => match Heap.documentAt h l with
                           | Some d => keeps st term d
                           | None => false
                           end) drefs).
  set (h1 := <[r := Heap.Array kept]> h).
  set (out := JsArray.sort
                (fun a b => match Heap.documentAt h1 a, Heap.documentAt h1 b with
                            | Some x, Some y => byRecency x y
                            | _, _ => 0
                            end) kept).
  assert (Hkept : refer h kept (JsArray.filter (keeps st term) (documents st)))
    by now apply filter_refer.
  assert (Hkept1 : refer h1 kept (JsArray.filter (keeps st term) (documents st))).
  { eapply Forall2_impl; [exact Hkept|]. intros l d. now apply documentAt_alloc. }
  assert (Hout : refer h1 out (filteredDocuments st)) by now apply sort_refer.
  assert (Hframe : forall l o, h !! l = Some o ->
                     <[r := Heap.Array out]> h !! l = Some o).
  { intros l o Hl. rewrite lookup_insert_ne; [exact Hl|]. intros <-. congruence. }
  exists r, out, (<[r := Heap.Array out]> h).
  split.
  { unfold Heap.filteredDocuments. rewrite Hres, Hs. cbv zeta.
    unfold Heap.array_filter. rewrite Hdarr. cbv zeta. fold r term kept h1.
    unfold Heap.array_sort. unfold h1 at 1. rewrite lookup_insert_eq. cbv zeta.
    fold h1 out. unfold h1. now rewrite insert_insert_eq. }
  split; [exact Hr|]. split; [reflexivity|]. split; [exact Hframe|].
  split.
  { intros s' Hs'. rewrite Hs in Hs'. injection Hs' as <-.
    split; [intros ->; congruence|].
    intros refs Hrefs l Hl. rewrite Hdarr in Hrefs. injection Hrefs as <-.
    apply (array_sort_In _ l kept) in Hl. now apply array_filter_In in Hl. }
  split.
  { unfold Heap.elementsAt. rewrite lookup_insert_eq. apply mapM_Some.
    eapply Forall2_impl; [exact Hout|]. intros l d. unfold h1, Heap.documentAt.
    destruct (decide (l = r)) as [->|Hne].
    - rewrite !lookup_insert_eq. discriminate.
    - now rewrite !lookup_insert_ne by congruence. }
  now apply (resolve_extend this_state h).
Qed.

End HeapProperties.

(** ** The statements at concrete inputs *)

Lemma write_then_read_witness :
  setItem_denied (localStorage (worldOf (roomyStorage ∅)))
                 (LocalStorageStore.key settingsStore)
                 (JSON.stringify (JObject someSettings)) = None /\
  getItem_denied (localStorage (worldOf (roomyStorage ∅))) = None /\
  JSON.parse (JSON.stringify (JObject someSettings)) = Normal (JObject someSettings) /\
  JsString.is_empty (JSON.stringify (JObject someSettings)) = false /\
  exists (r : LocalStorageStore.Returned) (w' : World),
    LocalStorageStore.read JSON.parse settingsStore
      (snd (LocalStorageStore.write JSON.stringify quiet settingsStore someSettings
              (worldOf (roomyStorage ∅))))
    = (Normal r, w') /\
    LocalStorageStore.value_of settingsStore r = someSettings.
Proof.
  assert (H1 : setItem_denied (localStorage (worldOf (roomyStorage ∅)))
                 (LocalStorageStore.key settingsStore)
                 (JSON.stringify (JObject someSettings)) = None) by reflexivity.
  assert (H2 : getItem_denied (localStorage (worldOf (roomyStorage ∅))) = None)
    by reflexivity.
  assert (H3 : JSON.parse (JSON.stringify (JObject someSettings))
               = Normal (JObject someSettings)) by (vm_compute; reflexivity).
  assert (H4 : JsString.is_empty (JSON.stringify (JObject someSettings)) = false)
    by (vm_compute; reflexivity).
  repeat (split; [assumption|]).
  destruct (write_then_read JSON.parse JSON.stringify quiet settingsStore someSettings
              (worldOf (roomyStorage ∅)) H1 H2 H3 H4) as [r [w' [Hread [_ [_ Hall]]]]].
  exists r, w'. split; [exact Hread|].
  apply Hall. vm_compute. intros x Hx. exact Hx.
Defined.

(** C7, as stated, fails: with the subscribers 1 and 2 registered and the
    body of 1 throwing, [write] does not call every registered subscriber:
    2 is never called. *)
Lemma write_skips_after_throw :
  let w' := snd (LocalStorageStore.write JSON.stringify firstThrows watchedStore
                   someSettings (worldOf (roomyStorage ∅))) in
  LocalStorageStore.subscribers watchedStore = [1%nat; 2%nat] /\
  invocations w' = [(1%nat, someSettings)] /\
  invocations w'
    <> map (fun s => (s, someSettings)) (LocalStorageStore.subscribers watchedStore).
Proof.
  cbv zeta. split; [reflexivity|].
  rewrite write_unfold.
  change (setItem_denied _ _ _) with (@None exn). cbn [snd after_calls invocations].
  change (reached firstThrows someSettings (LocalStorageStore.subscribers watchedStore))
    with [1%nat].
  split; [reflexivity|]. intros H. discriminate H.
Qed.

(** C8, as stated, fails: the callback 2, subscribed after the callback 1,
    is not called by a later write when the body of 1 throws, nor when the
    storage refuses the write. *)
Lemma subscribed_callback_not_called :
  watchedStore
    = fst (LocalStorageStore.subscribe
             (fst (LocalStorageStore.subscribe settingsStore 1%nat)) 2%nat) /\
  (forall v : T,
     ~ In (2%nat, v)
          (invocations
             (snd (LocalStorageStore.write JSON.stringify firstThrows watchedStore
                     someSettings (worldOf (roomyStorage ∅)))))) /\
  (forall v : T,
     ~ In (2%nat, v)
          (invocations
             (snd (LocalStorageStore.write JSON.stringify quiet watchedStore
                     someSettings (worldOf (fullStorage ∅)))))).
Proof.
  split; [reflexivity|]. split; intros v; rewrite write_unfold.
  - change (setItem_denied _ _ _) with (@None exn). cbn [snd after_calls invocations].
    change (reached firstThrows someSettings (LocalStorageStore.subscribers watchedStore))
      with [1%nat].
    intros [H|[]]. discriminate H.
  - change (setItem_denied _ _ _) with (Some QuotaExceededError).
    cbn [snd worldOf invocations]. intros [].
Qed.

Lemma subscribe_unsubscribe_witness :
  setItem_denied (localStorage (worldOf (roomyStorage ∅)))
                 (LocalStorageStore.key
                    (fst (LocalStorageStore.subscribe settingsStore 1%nat)))
                 (JSON.stringify (JObject someSettings)) = None /\
  Forall (fun s => quiet s someSettings = Normal tt)
         (LocalStorageStore.subscribers settingsStore) /\
  invocations
    (snd (LocalStorageStore.write JSON.stringify quiet
            (fst (LocalStorageStore.subscribe settingsStore 1%nat)) someSettings
            (worldOf (roomyStorage ∅))))
  = [(1%nat, someSettings)].
Proof.
  assert (H1 : setItem_denied (localStorage (worldOf (roomyStorage ∅)))
                 (LocalStorageStore.key
                    (fst (LocalStorageStore.subscribe settingsStore 1%nat)))
                 (JSON.stringify (JObject someSettings)) = None) by reflexivity.
  assert (H2 : Forall (fun s => quiet s someSettings = Normal tt)
                      (LocalStorageStore.subscribers settingsStore)) by constructor.
  split; [exact H1|]. split; [exact H2|].
  destruct (subscribe_unsubscribe JSON.stringify quiet settingsStore 1%nat)
    as [_ [Hcall _]].
  apply (Hcall someSettings (worldOf (roomyStorage ∅)) H1 H2).
Defined.

Lemma write_overwrites_then_notifies_witness :
  setItem_denied (localStorage (worldOf (roomyStorage ∅)))
                 (LocalStorageStore.key watchedStore)
                 (JSON.stringify (JObject someSettings)) = None /\
  invocations
    (snd (LocalStorageStore.write JSON.stringify quiet watchedStore someSettings
            (worldOf (roomyStorage ∅))))
  = [(1%nat, someSettings); (2%nat, someSettings)].
Proof.
  split; [reflexivity|].
  apply (write_overwrites_then_notifies JSON.stringify quiet watchedStore someSettings
           (worldOf (roomyStorage ∅)) eq_refl).
  repeat constructor.
Defined.

Lemma write_refused_witness :
  setItem_denied (localStorage (worldOf (fullStorage ∅)))
                 (LocalStorageStore.key watchedStore)
                 (JSON.stringify (JObject someSettings)) = Some QuotaExceededError /\
  LocalStorageStore.write JSON.stringify quiet watchedStore someSettings
    (worldOf (fullStorage ∅))
  = (Throw QuotaExceededError, worldOf (fullStorage ∅)).
Proof.
  split; [reflexivity|].
  apply (write_refused JSON.stringify quiet watchedStore someSettings
           (worldOf (fullStorage ∅)) QuotaExceededError).
  reflexivity.
Defined.


Lemma filteredDocuments_frame_witness :
  Heap.resolve 1%positive fixtureHeap
  = Some (mkView fixtureDocuments primeAgents (Some "d_origin_sky") "" "Tidal Covenant" false) /\
  exists (r : positive) (h' : gmap positive Heap.object),
    Heap.filteredDocuments 1%positive fixtureHeap = Some (r, h') /\
    h' !! 2%positive = Some (Heap.Array [11; 12; 13; 14; 15]%positive) /\
    Heap.elementsAt Heap.documentAt h' r
    = Some [d_silted_reckoning clock; d_tidal_vow clock].
Proof.
  assert (Hres : Heap.resolve 1%positive fixtureHeap
                 = Some (mkView fixtureDocuments primeAgents (Some "d_origin_sky") ""
                                "Tidal Covenant" false)) by (vm_compute; reflexivity).
  split; [exact Hres|].
  destruct (filteredDocuments_frame 1%positive fixtureHeap _ Hres)
    as [r [out [h' [Hrun [_ [_ [Hframe [_ [Hout _]]]]]]]]].
  exists r, h'. split; [exact Hrun|]. split.
  - apply Hframe. vm_compute. reflexivity.
  - rewrite Hout. vm_compute. reflexivity.
Defined.

(** Content that parses is spread whatever its shape: a stored JSON string
    literal adds its code units as indexed properties to the default. *)
Example read_string_content :
  fst (LocalStorageStore.read JSON.parse settingsStore
         (worldOf (roomyStorage
                     {[ "infinite-library.settings" := String "034" ("hi" ++ String "034" "") ]})))
  = Normal (LocalStorageStore.Fresh
              (<["0" := JString "h"]> (<["1" := JString "i"]> settingsDefault))).
Proof. vm_compute. reflexivity. Qed.

(** Content that does not parse gives the default object and one warning. *)
Example read_corrupt_content :
  LocalStorageStore.read JSON.parse settingsStore
    (worldOf (roomyStorage {[ "infinite-library.settings" := "not json{" ]}))
  = (Normal LocalStorageStore.TheDefault,
     after_warning (worldOf (roomyStorage {[ "infinite-library.settings" := "not json{" ]}))
                   "infinite-library.settings" SyntaxError).
Proof. vm_compute. reflexivity. Qed.

(** * Further properties of the code *)

(** ** The filtering engine: composition of the filters *)

Lemma array_filter_true {A} (l : list A) : JsArray.filter (fun _ => true) l = l.
Proof. induction l as [|x l IH]; simpl; [reflexivity | now rewrite IH]. Qed.

Lemma array_filter_ext {A} (p q : A -> bool) (l : list A) :
  (forall x, In x l -> p x = q x) -> JsArray.filter p l = JsArray.filter q l.
Proof.
  induction l as [|x l IH]; intros H; simpl; [reflexivity|].
  rewrite (H x) by now left. rewrite IH by (intros; apply H; now right). reflexivity.
Qed.

Lemma array_filter_filter {A} (p q : A -> bool) (l : list A) :
  JsArray.filter q (JsArray.filter p l) = JsArray.filter (fun x => p x && q x) l.
Proof.
  induction l as [|x l IH]; simpl; [reflexivity|].
  destruct (p x); simpl; [destruct (q x)|]; now rewrite IH.
Qed.

Lemma array_filter_length {A} (p : A -> bool) (l : list A) :
  (length (JsArray.filter p l) <= length l)%nat.
Proof.
  induction l as [|x l IH]; simpl; [lia|]. destruct (p x); simpl; lia.
Qed.

(** In a list sorted by recency, a document that is not older than the head
    goes in front. *)
Lemma insert_byRecency_front (x : DocumentRecord.t) (l : list DocumentRecord.t) :
  Forall (notOlder x) l -> JsArray.insert byRecency x l = x :: l.
Proof.
  destruct 1 as [|y l Hy _]; simpl; [reflexivity|].
  unfold byRecency, notOlder in *.
  destruct (Z.leb_spec (DocumentRecord.timestamp y - DocumentRecord.timestamp x) 0);
    [reflexivity | lia].
Qed.

Lemma filter_insert_byRecency (p : DocumentRecord.t -> bool) (x : DocumentRecord.t)
      (l : list DocumentRecord.t) :
  StronglySorted notOlder l ->
  JsArray.filter p (JsArray.insert byRecency x l) =
  if p x then JsArray.insert byRecency x (JsArray.filter p l) else JsArray.filter p l.
Proof.
  induction 1 as [|y l Hl IH Hy].
  - simpl. now destruct (p x).
  - cbn [JsArray.insert]. destruct (byRecency x y <=? 0) eqn:E.
    + cbn [JsArray.filter]. destruct (p x) eqn:Hx; [|reflexivity].
      symmetry. apply insert_byRecency_front.
      apply Z.leb_le in E. unfold byRecency in E.
      assert (Hall : Forall (notOlder x) (y :: l)).
      { constructor; [unfold notOlder; lia|].
        eapply Forall_impl; [exact Hy|]. unfold notOlder. intros; lia. }
      change (if p y then y :: JsArray.filter p l else JsArray.filter p l)
        with (JsArray.filter p (y :: l)).
      apply List.Forall_forall. intros z Hz. apply array_filter_In in Hz.
      destruct Hz as [Hz _]. revert z Hz. now apply List.Forall_forall.
    + cbn [JsArray.filter]. rewrite IH.
      destruct (p y) eqn:Hpy, (p x) eqn:Hx; try reflexivity.
      cbn [JsArray.insert]. now rewrite E.
Qed.

(** Filtering commutes with the sort by recency. *)
Lemma filter_sort_byRecency (p : DocumentRecord.t -> bool) (l : list DocumentRecord.t) :
  JsArray.filter p (JsArray.sort byRecency l) = JsArray.sort byRecency (JsArray.filter p l).
Proof.
  induction l as [|x l IH]; simpl; [reflexivity|].
  rewrite filter_insert_byRecency by apply sort_byRecency_sorted.
  rewrite IH. now destruct (p x).
Qed.


Lemma filteredDocuments_unfiltered (st : LibraryViewState) :
  filteredDocuments (unfiltered st) = JsArray.sort byRecency (documents st).
Proof.
  unfold filteredDocuments. cbv zeta. f_equal.
  change (documents (unfiltered st)) with (documents st).
  transitivity (JsArray.filter (fun _ => true) (documents st));
    [|apply array_filter_true].
  apply array_filter_ext. intros d _. reflexivity.
Qed.

Lemma filter_NoDup_ids (p : DocumentRecord.t -> bool) (l : list DocumentRecord.t) :
  NoDup (map DocumentRecord.id l) ->
  NoDup (map DocumentRecord.id (JsArray.filter p l)).
Proof.
  induction l as [|d l IH]; simpl; [intros; constructor|].
  intros Hnd. apply NoDup_cons in Hnd. destruct Hnd as [Hd Hl].
  destruct (p d); [|now apply IH].
  simpl. apply NoDup_cons. split; [|now apply IH].
  intros Hin. apply Hd. apply list_elem_of_In in Hin. apply list_elem_of_In.
  apply in_map_iff in Hin. destruct Hin as [d' [Hid Hd']].
  apply array_filter_In in Hd'. apply in_map_iff. exists d'. tauto.
Qed.

(** X1: the sort neither adds nor drops a document: the output is a
    rearrangement of the documents that pass the filter, it is no longer
    than the collection, and distinct ids in the collection give distinct
    ids in the output. *)
Theorem filteredDocuments_rearranges (st : LibraryViewState) :
  Permutation (filteredDocuments st)
              (JsArray.filter (keeps st (normalizedTerm st)) (documents st)) /\
  (length (filteredDocuments st) <= length (documents st))%nat /\
  (NoDup (map DocumentRecord.id (documents st)) ->
   NoDup (map DocumentRecord.id (filteredDocuments st))).
Proof.
  assert (Hperm : Permutation (filteredDocuments st)
                    (JsArray.filter (keeps st (normalizedTerm st)) (documents st)))
    by apply sort_Permutation.
  split; [exact Hperm|]. split.
  - rewrite (Permutation_length Hperm). apply array_filter_length.
  - intros Hnd.
    pose proof (filter_NoDup_ids (keeps st (normalizedTerm st)) _ Hnd) as Hf.
    now rewrite Hperm.
Qed.

(** X2: the output is the whole collection in order of recency with the
    documents that fail the filter taken out; the others keep their order. *)
Theorem filteredDocuments_of_listing (st : LibraryViewState) :
  filteredDocuments st =
  JsArray.filter (keeps st (normalizedTerm st)) (filteredDocuments (unfiltered st)).
Proof.
  rewrite filteredDocuments_unfiltered, filter_sort_byRecency. reflexivity.
Qed.

(** X3: switching canon focus on takes the documents of canon weight below
    0.7 out of what was listed with it off, and changes nothing else. *)
Theorem canon_focus_narrows (st : LibraryViewState) :
  filteredDocuments (setShowCanonOnly st true) =
  JsArray.filter (fun d => Qgeb (DocumentRecord.canonWeight d) 0.7)
                 (filteredDocuments (setShowCanonOnly st false)).
Proof.
  unfold filteredDocuments. cbv zeta.
  rewrite filter_sort_byRecency, array_filter_filter. f_equal.
  apply array_filter_ext. intros d _.
  change (normalizedTerm (setShowCanonOnly st true)) with (normalizedTerm st).
  change (normalizedTerm (setShowCanonOnly st false)) with (normalizedTerm st).
  unfold keeps, Qltb, Qgeb.
  change (factionFilter (setShowCanonOnly st _)) with (factionFilter st).
  change (haystack (setShowCanonOnly st true) d) with (haystack st d).
  change (haystack (setShowCanonOnly st false) d) with (haystack st d).
  cbn [showCanonOnly setShowCanonOnly andb].
  destruct (negb (String.eqb (factionFilter st) "all")
            && negb (String.eqb (DocumentRecord.factionTag d) (factionFilter st)));
    [reflexivity|].
  destruct (Qle_bool 0.7 (DocumentRecord.canonWeight d)); cbn [negb];
    [now rewrite andb_true_r | now rewrite andb_false_r].
Qed.

(** X4: choosing a faction takes the documents of the other factions out of
    what was listed under "all", and changes nothing else. *)
Theorem faction_filter_narrows (st : LibraryViewState) (faction : string) :
  faction <> "all" ->
  filteredDocuments (setFactionFilter st faction) =
  JsArray.filter (fun d => String.eqb (DocumentRecord.factionTag d) faction)
                 (filteredDocuments (setFactionFilter st "all")).
Proof.
  intros Hf. unfold filteredDocuments. cbv zeta.
  rewrite filter_sort_byRecency, array_filter_filter. f_equal.
  apply array_filter_ext. intros d _.
  change (normalizedTerm (setFactionFilter st faction)) with (normalizedTerm st).
  change (normalizedTerm (setFactionFilter st "all")) with (normalizedTerm st).
  unfold keeps.
  change (haystack (setFactionFilter st faction) d) with (haystack st d).
  change (haystack (setFactionFilter st "all") d) with (haystack st d).
  cbn [factionFilter showCanonOnly setFactionFilter].
  apply String.eqb_neq in Hf. rewrite Hf. cbn [negb andb String.eqb Ascii.eqb Bool.eqb].
  destruct (String.eqb (DocumentRecord.factionTag d) faction); cbn [negb];
    [now rewrite andb_true_r | now rewrite andb_false_r].
Qed.

Lemma faction_filter_narrows_witness :
  "Tidal Covenant" <> "all" /\
  filteredDocuments (setFactionFilter (initialState fixtureDocuments) "Tidal Covenant") =
  JsArray.filter (fun d => String.eqb (DocumentRecord.factionTag d) "Tidal Covenant")
                 (filteredDocuments (setFactionFilter (initialState fixtureDocuments) "all")).
Proof.
  assert (H : "Tidal Covenant" <> "all") by discriminate.
  split; [exact H|].
  apply (faction_filter_narrows (initialState fixtureDocuments) "Tidal Covenant" H).
Defined.

(** ** The filtering engine: normalisation of the search term *)

Lemma is_space_lower_char (c : ascii) :
  JsString.is_space (JsString.lower_char c) = JsString.is_space c.
Proof. destruct c as [[] [] [] [] [] [] [] []]; reflexivity. Qed.

Lemma lower_char_idempotent (c : ascii) :
  JsString.lower_char (JsString.lower_char c) = JsString.lower_char c.
Proof. destruct c as [[] [] [] [] [] [] [] []]; reflexivity. Qed.

Lemma toLowerCase_idempotent (s : string) :
  JsString.toLowerCase (JsString.toLowerCase s) = JsString.toLowerCase s.
Proof.
  induction s as [|c s IH]; simpl; [reflexivity|].
  now rewrite lower_char_idempotent, IH.
Qed.

Lemma trimStart_toLowerCase (s : string) :
  JsString.trimStart (JsString.toLowerCase s) = JsString.toLowerCase (JsString.trimStart s).
Proof.
  induction s as [|c s IH]; simpl; [reflexivity|].
  rewrite is_space_lower_char. now destruct (JsString.is_space c).
Qed.

Lemma trimEnd_toLowerCase (s : string) :
  JsString.trimEnd (JsString.toLowerCase s) = JsString.toLowerCase (JsString.trimEnd s).
Proof.
  induction s as [|c s IH]; simpl; [reflexivity|].
  rewrite IH, is_space_lower_char.
  destruct (JsString.trimEnd s); simpl; [now destruct (JsString.is_space c) | reflexivity].
Qed.

Lemma trim_toLowerCase (s : string) :
  JsString.trim (JsString.toLowerCase s) = JsString.toLowerCase (JsString.trim s).
Proof.
  unfold JsString.trim. now rewrite trimStart_toLowerCase, trimEnd_toLowerCase.
Qed.

Lemma trimEnd_idempotent (s : string) :
  JsString.trimEnd (JsString.trimEnd s) = JsString.trimEnd s.
Proof.
  induction s as [|c s IH]; [reflexivity|].
  cbn [JsString.trimEnd]. destruct (JsString.trimEnd s) as [|d t] eqn:Ht.
  - destruct (JsString.is_space c) eqn:Hc; [reflexivity|].
    cbn [JsString.trimEnd]. now rewrite Hc.
  - cbn [JsString.trimEnd] in *. now rewrite IH.
Qed.

Lemma trimStart_head (s : string) (c : ascii) (rest : string) :
  JsString.trimStart s = String c rest -> JsString.is_space c = false.
Proof.
  induction s as [|d s IH]; simpl; [discriminate|].
  destruct (JsString.is_space d) eqn:Hd; [exact IH|]. now intros [= <- _].
Qed.

Lemma trimEnd_keeps_head (c : ascii) (s : string) :
  JsString.is_space c = false ->
  exists rest, JsString.trimEnd (String c s) = String c rest.
Proof.
  intros Hc. cbn [JsString.trimEnd]. destruct (JsString.trimEnd s).
  - rewrite Hc. now eexists.
  - now eexists.
Qed.

Lemma trim_idempotent (s : string) :
  JsString.trim (JsString.trim s) = JsString.trim s.
Proof.
  unfold JsString.trim.
  destruct (JsString.trimStart s) as [|c rest] eqn:Hs; [reflexivity|].
  destruct (trimEnd_keeps_head c rest (trimStart_head _ _ _ Hs)) as [t Ht].
  rewrite Ht. cbn [JsString.trimStart]. rewrite (trimStart_head _ _ _ Hs).
  rewrite <- Ht. apply trimEnd_idempotent.
Qed.

Lemma trimStart_blank (s : string) :
  (forall c, In c (list_ascii_of_string s) -> JsString.is_space c = true) ->
  JsString.trimStart s = EmptyString.
Proof.
  induction s as [|c s IH]; simpl; [reflexivity|].
  intros H. rewrite (H c) by now left. apply IH. intros d Hd. apply H. now right.
Qed.

(** The output depends on the search term through its normal form only. *)
Lemma filteredDocuments_term (st : LibraryViewState) (a b : string) :
  JsString.toLowerCase (JsString.trim a) = JsString.toLowerCase (JsString.trim b) ->
  filteredDocuments (setSearchTerm st a) = filteredDocuments (setSearchTerm st b).
Proof.
  intros H. unfold filteredDocuments, normalizedTerm. cbv zeta.
  cbn [searchTerm documents setSearchTerm]. rewrite H. reflexivity.
Qed.

(** X5: a search term made of white space only filters nothing: the output
    is what an empty term gives. *)
Theorem blank_search_is_no_search (st : LibraryViewState) (term : string) :
  (forall c, In c (list_ascii_of_string term) -> JsString.is_space c = true) ->
  filteredDocuments (setSearchTerm st term) = filteredDocuments (setSearchTerm st EmptyString).
Proof.
  intros Hblank. apply filteredDocuments_term.
  unfold JsString.trim. now rewrite (trimStart_blank term Hblank).
Qed.

Lemma blank_search_is_no_search_witness :
  (forall c, In c (list_ascii_of_string ("  " ++ nl)) -> JsString.is_space c = true) /\
  filteredDocuments (setSearchTerm (initialState fixtureDocuments) ("  " ++ nl)) =
  filteredDocuments (setSearchTerm (initialState fixtureDocuments) EmptyString).
Proof.
  assert (H : forall c, In c (list_ascii_of_string ("  " ++ nl)) ->
                        JsString.is_space c = true).
  { intros c [<-|[<-|[<-|[]]]]; reflexivity. }
  split; [exact H|].
  apply (blank_search_is_no_search (initialState fixtureDocuments) ("  " ++ nl) H).
Defined.

(** X6: the search is insensitive to the case of the term and to the white
    space around it: the lower-cased term, the trimmed term and the term
    itself give the same output. *)
Theorem search_term_normalised (st : LibraryViewState) (term : string) :
  filteredDocuments (setSearchTerm st (JsString.toLowerCase term))
    = filteredDocuments (setSearchTerm st term) /\
  filteredDocuments (setSearchTerm st (JsString.trim term))
    = filteredDocuments (setSearchTerm st term).
Proof.
  split; apply filteredDocuments_term.
  - now rewrite trim_toLowerCase, toLowerCase_idempotent.
  - now rewrite trim_idempotent.
Qed.

(** ** The faction select *)

Lemma existsb_eqb_In (x : string) (seen : list string) :
  existsb (String.eqb x) seen = true <-> In x seen.
Proof.
  rewrite existsb_exists. split.
  - intros [y [Hy H]]. apply String.eqb_eq in H. now subst.
  - intros H. exists x. split; [exact H | apply String.eqb_refl].
Qed.

Lemma distinct_from (values seen : list string) :
  let result :=
    fold_left
      (fun seen x => if existsb (String.eqb x) seen then seen else (seen ++ [x])%list)
      values seen in
  (NoDup seen -> NoDup result) /\
  (forall x, In x result <-> In x seen \/ In x values).
Proof.
  revert seen. induction values as [|v values IH]; intros seen; cbn [fold_left].
  - split; [auto | intros x; simpl; tauto].
  - destruct (existsb (String.eqb v) seen) eqn:Hv.
    + destruct (IH seen) as [IH1 IH2]. split; [exact IH1|].
      intros x. rewrite IH2. apply existsb_eqb_In in Hv. simpl.
      split; [tauto | intros [H|[<-|H]]; auto].
    + destruct (IH (seen ++ [v])%list) as [IH1 IH2]. split.
      * intros Hnd. apply IH1. apply NoDup_app. repeat split; [exact Hnd| |].
        -- intros x Hx Hxv. apply list_elem_of_In in Hxv. destruct Hxv as [<-|[]].
           apply list_elem_of_In, existsb_eqb_In in Hx. congruence.
        -- apply NoDup_singleton.
      * intros x. rewrite IH2, in_app_iff. simpl. tauto.
Qed.

(** X7: the faction select offers "all" first and then every faction tag
    that occurs on a document, once each, and nothing else. *)
Theorem factionOptions_spec (st : LibraryViewState) :
  exists tags : list string,
    factionOptions st = "all" :: tags /\
    NoDup tags /\
    forall faction : string,
      In faction tags <->
      exists doc, In doc (documents st) /\ DocumentRecord.factionTag doc = faction.
Proof.
  exists (distinct (map DocumentRecord.factionTag (documents st))).
  split; [reflexivity|].
  destruct (distinct_from (map DocumentRecord.factionTag (documents st)) []) as [H1 H2].
  split; [apply H1; constructor|].
  intros faction. unfold distinct. rewrite H2, in_map_iff. simpl.
  split; [intros [[]|[d [Hd Hin]]] | intros [d [Hin Hd]]]; eauto.
Qed.

Lemma factionOptions_tags (st : LibraryViewState) (faction : string) :
  In faction (factionOptions st) -> faction <> "all" ->
  exists doc, In doc (documents st) /\ DocumentRecord.factionTag doc = faction.
Proof.
  intros [<-|Hin] Hne; [congruence|].
  destruct (distinct_from (map DocumentRecord.factionTag (documents st)) []) as [_ H2].
  apply H2 in Hin. destruct Hin as [[]|Hin].
  apply in_map_iff in Hin. destruct Hin as [d [Hd Hin]]. eauto.
Qed.

(** X8: with canon focus off and no search term, choosing any faction that
    the select offers, other than "all", lists at least one document, and
    only documents of that faction. *)
Theorem offered_faction_lists_documents (st : LibraryViewState) (faction : string) :
  In faction (factionOptions st) ->
  faction <> "all" ->
  showCanonOnly st = false ->
  searchTerm st = EmptyString ->
  filteredDocuments (setFactionFilter st faction) <> [] /\
  forall doc, In doc (filteredDocuments (setFactionFilter st faction)) ->
              DocumentRecord.factionTag doc = faction.
Proof.
  intros Hin Hne Hcanon Hterm.
  destruct (factionOptions_tags st faction Hin Hne) as [d [Hd Htag]].
  assert (Hkeep : forall doc,
            In doc (filteredDocuments (setFactionFilter st faction)) <->
            In doc (documents st) /\ DocumentRecord.factionTag doc = faction).
  { intros doc. unfold filteredDocuments. cbv zeta.
    rewrite array_sort_In, array_filter_In, keeps_spec.
    cbn [documents factionFilter showCanonOnly setFactionFilter].
    unfold normalizedTerm. cbn [searchTerm setFactionFilter]. rewrite Hterm, Hcanon.
    split; [intros [H1 [H2 _]]; auto|].
    intros [H1 H2]. repeat split; auto; [discriminate | intros H; now elim H]. }
  split.
  - intros Hempty. assert (Hd' : In d (filteredDocuments (setFactionFilter st faction)))
      by now apply Hkeep.
    rewrite Hempty in Hd'. destruct Hd'.
  - intros doc Hdoc. now apply Hkeep in Hdoc.
Qed.

Lemma offered_faction_lists_documents_witness :
  In "Ember Reliquary" (factionOptions (initialState fixtureDocuments)) /\
  "Ember Reliquary" <> "all" /\
  showCanonOnly (initialState fixtureDocuments) = false /\
  searchTerm (initialState fixtureDocuments) = EmptyString /\
  filteredDocuments (setFactionFilter (initialState fixtureDocuments) "Ember Reliquary")
  <> [].
Proof.
  assert (H1 : In "Ember Reliquary" (factionOptions (initialState fixtureDocuments)))
    by (vm_compute; tauto).
  assert (H2 : "Ember Reliquary" <> "all") by discriminate.
  repeat (split; [first [exact H1 | exact H2 | reflexivity]|]).
  apply (offered_faction_lists_documents (initialState fixtureDocuments)
           "Ember Reliquary" H1 H2 eq_refl eq_refl).
Defined.

(** ** The cards of the archive list *)

(** X9: while canon focus is on, every listed document carries the status
    "Canon" on its badge. *)
Theorem canon_focus_lists_canon_badges (st : LibraryViewState) (doc : DocumentRecord.t) :
  showCanonOnly st = true ->
  In doc (filteredDocuments st) ->
  canonStatus doc = "Canon".
Proof.
  intros Hcanon Hdoc. unfold filteredDocuments in Hdoc. cbv zeta in Hdoc.
  apply array_sort_In, array_filter_In in Hdoc. destruct Hdoc as [_ Hkeep].
  apply keeps_spec in Hkeep. destruct Hkeep as [_ [Hw _]].
  specialize (Hw Hcanon). apply Qle_bool_iff in Hw.
  unfold canonStatus, Qgeb. now rewrite Hw.
Qed.

Lemma canon_focus_lists_canon_badges_witness :
  showCanonOnly (canonOnlyView fixtureDocuments None) = true /\
  In (d_origin_sky clock) (filteredDocuments (canonOnlyView fixtureDocuments None)) /\
  canonStatus (d_origin_sky clock) = "Canon".
Proof.
  assert (H : In (d_origin_sky clock)
                 (filteredDocuments (canonOnlyView fixtureDocuments None)))
    by (vm_compute; tauto).
  split; [reflexivity|]. split; [exact H|].
  apply (canon_focus_lists_canon_badges (canonOnlyView fixtureDocuments None)
           (d_origin_sky clock) eq_refl H).
Defined.

Lemma findAuthor_first (st : LibraryViewState) (doc : DocumentRecord.t)
      (before : list Agent.t) (agent : Agent.t) (rest : list Agent.t) :
  agents st = (before ++ agent :: rest)%list ->
  Agent.id agent = DocumentRecord.authorId doc ->
  (forall a, In a before -> Agent.id a <> DocumentRecord.authorId doc) ->
  findAuthor st doc = Some agent.
Proof.
  unfold findAuthor. intros -> Hid. induction before as [|b before IH]; intros Hno; simpl.
  - now rewrite <- Hid, String.eqb_refl.
  - destruct (String.eqb_spec (Agent.id b) (DocumentRecord.authorId doc)) as [Heq|_].
    + exfalso. apply (Hno b); [now left | exact Heq].
    + apply IH. intros a Ha. apply Hno. now right.
Qed.

Lemma findAuthor_none (st : LibraryViewState) (doc : DocumentRecord.t) :
  (forall a, In a (agents st) -> Agent.id a <> DocumentRecord.authorId doc) ->
  findAuthor st doc = None.
Proof.
  unfold findAuthor. induction (agents st) as [|b l IH]; intros Hno; simpl; [reflexivity|].
  destruct (String.eqb_spec (Agent.id b) (DocumentRecord.authorId doc)) as [Heq|_].
  - exfalso. apply (Hno b); [now left | exact Heq].
  - apply IH. intros a Ha. apply Hno. now right.
Qed.

(** X10: the card, the badge and the search resolve the author in the same
    way.  When several agents share the author id, the first one supplies
    the name on the card, the credibility on the badge and the name that is
    searched; when no agent has the id, the card shows "Unknown author", the
    badge shows credibility 50 and the search sees an empty author name. *)
Theorem author_lookup_consistent (st : LibraryViewState) (doc : DocumentRecord.t) :
  (forall (before : list Agent.t) (agent : Agent.t) (rest : list Agent.t),
     agents st = (before ++ agent :: rest)%list ->
     Agent.id agent = DocumentRecord.authorId doc ->
     (forall a, In a before -> Agent.id a <> DocumentRecord.authorId doc) ->
     cardAuthor st doc = Agent.name agent /\
     cardCredibility st doc = Agent.credibility agent /\
     authorName st doc = Agent.name agent) /\
  ((forall a, In a (agents st) -> Agent.id a <> DocumentRecord.authorId doc) ->
   cardAuthor st doc = "Unknown author" /\
   cardCredibility st doc = 50%Q /\
   authorName st doc = EmptyString).
Proof.
  split.
  - intros before agent rest Hag Hid Hno.
    unfold cardAuthor, cardCredibility.
    rewrite (findAuthor_first st doc before agent rest Hag Hid Hno).
    repeat split. now apply (authorName_resolved st doc before agent rest).
  - intros Hno. unfold cardAuthor, cardCredibility.
    rewrite (findAuthor_none st doc Hno). repeat split.
    now apply authorName_unresolved.
Qed.

(** ** [refreshArchiveList] and [refreshDocumentView] *)

Lemma filteredDocuments_setActive (st : LibraryViewState) (a : option string) :
  filteredDocuments (setActiveDocumentId st a) = filteredDocuments st.
Proof. reflexivity. Qed.

Lemma setActiveDocumentId_same (st : LibraryViewState) :
  setActiveDocumentId st (activeDocumentId st) = st.
Proof. now destruct st. Qed.

Lemma refreshArchiveList_state (app : InfiniteLibraryApp) :
  state (refreshArchiveList app) =
  setActiveDocumentId (state app) (activeDocumentId (state (refreshArchiveList app))).
Proof.
  unfold refreshArchiveList.
  destruct (archiveListEl app); [|now rewrite setActiveDocumentId_same].
  destruct (length (filteredDocuments (state app)) =? 0)%nat.
  - rewrite refreshDocumentView_state. cbn [state]. now rewrite setActiveDocumentId_same.
  - destruct (negb _).
    + rewrite refreshDocumentView_state. reflexivity.
    + cbn [state]. now rewrite setActiveDocumentId_same.
Qed.

Lemma refreshArchiveList_mounted (app : InfiniteLibraryApp) :
  archiveListEl (refreshArchiveList app) = None <-> archiveListEl app = None.
Proof.
  unfold refreshArchiveList. destruct (archiveListEl app) eqn:E; [|now rewrite E].
  split; [|discriminate].
  destruct (length _ =? 0)%nat; [|destruct (negb _)];
    unfold refreshDocumentView; cbn [detailContainerEl archiveListEl];
    destruct (detailContainerEl app); cbn [archiveListEl]; discriminate.
Qed.

Lemma refreshArchiveList_active_visible
      (app : InfiniteLibraryApp) (first : DocumentRecord.t) (rest : list DocumentRecord.t) :
  archiveListEl app <> None ->
  filteredDocuments (state app) = first :: rest ->
  JsArray.some (isActive (activeDocumentId (state (refreshArchiveList app))))
               (first :: rest) = true.
Proof.
  intros Hel Hdocs. rewrite refreshArchiveList_activeDocumentId, Hdocs.
  destruct (archiveListEl app); [|congruence].
  destruct (JsArray.some (isActive (activeDocumentId (state app))) (first :: rest)) eqn:Hsome.
  - exact Hsome.
  - cbn [JsArray.some isActive]. now rewrite String.eqb_refl.
Qed.

(** X11: [refreshArchiveList] changes nothing of the view state but the
    active document id: the collections and the three filters are as
    before.  Refreshing twice leaves the view state as refreshing once. *)
Theorem refreshArchiveList_keeps_filters (app : InfiniteLibraryApp) :
  let st' := state (refreshArchiveList app) in
  documents st' = documents (state app) /\
  agents st' = agents (state app) /\
  searchTerm st' = searchTerm (state app) /\
  factionFilter st' = factionFilter (state app) /\
  showCanonOnly st' = showCanonOnly (state app) /\
  state (refreshArchiveList (refreshArchiveList app)) = st'.
Proof.
  cbv zeta. rewrite (refreshArchiveList_state app).
  repeat (split; [reflexivity|]).
  set (app1 := refreshArchiveList app).
  assert (Hst1 : state app1 = setActiveDocumentId (state app) (activeDocumentId (state app1)))
    by apply refreshArchiveList_state.
  rewrite (refreshArchiveList_state app1).
  assert (Ha : activeDocumentId (state (refreshArchiveList app1))
               = activeDocumentId (state app1)).
  { rewrite (refreshArchiveList_activeDocumentId app1).
    destruct (archiveListEl app1) eqn:E1; [|reflexivity].
    assert (Hdocs : filteredDocuments (state app1) = filteredDocuments (state app))
      by (rewrite Hst1; apply filteredDocuments_setActive).
    rewrite Hdocs.
    destruct (filteredDocuments (state app)) as [|first rest] eqn:Hd; [reflexivity|].
    assert (Hel : archiveListEl app <> None).
    { intros Hnone. apply refreshArchiveList_mounted in Hnone. fold app1 in Hnone.
      congruence. }
    pose proof (refreshArchiveList_active_visible app first rest Hel Hd) as Hv.
    fold app1 in Hv. now rewrite Hv. }
  rewrite Ha, Hst1. reflexivity.
Qed.

Lemma refreshDocumentView_list (app : InfiniteLibraryApp) :
  archiveListEl (refreshDocumentView app) = archiveListEl app.
Proof. unfold refreshDocumentView. now destruct (detailContainerEl app). Qed.

Lemma array_some_false {A} (p : A -> bool) (l : list A) :
  JsArray.some p l = false -> forall x, In x l -> p x = false.
Proof.
  intros H x Hx. destruct (p x) eqn:Hp; [|reflexivity].
  assert (JsArray.some p l = true) by (apply array_some_true; eauto). congruence.
Qed.

Lemma array_find_some {A} (p : A -> bool) (l : list A) (x : A) :
  JsArray.find p l = Some x -> In x l /\ p x = true.
Proof.
  induction l as [|y l IH]; simpl; [discriminate|].
  destruct (p y) eqn:Hy.
  - intros [= <-]. auto.
  - intros H. destruct (IH H). auto.
Qed.

Lemma array_find_none {A} (p : A -> bool) (l : list A) :
  JsArray.find p l = None <-> forall x, In x l -> p x = false.
Proof.
  induction l as [|y l IH]; simpl.
  - split; [intros _ x [] | reflexivity].
  - destruct (p y) eqn:Hy.
    + split; [discriminate|]. intros H. rewrite (H y) in Hy by now left. discriminate.
    + rewrite IH. split; [intros H x [<-|Hx]; auto | intros H x Hx; apply H; now right].
Qed.

(** X12: when [refreshArchiveList] reselects, because the active id is not
    among the listed documents, the cards it has just drawn all stay
    unmarked although the first of them is now the active document; only a
    further refresh marks that card. *)
Theorem reselect_leaves_cards_unmarked
        (app : InfiniteLibraryApp) (first : DocumentRecord.t) (rest : list DocumentRecord.t) :
  archiveListEl app <> None ->
  filteredDocuments (state app) = first :: rest ->
  JsArray.some (isActive (activeDocumentId (state app))) (first :: rest) = false ->
  activeDocumentId (state (refreshArchiveList app)) = Some (DocumentRecord.id first) /\
  archiveListEl (refreshArchiveList app)
    = Some (map (fun d => ArchiveCard (DocumentRecord.id d) false) (first :: rest)) /\
  archiveListEl (refreshArchiveList (refreshArchiveList app))
    = Some (map (fun d => ArchiveCard (DocumentRecord.id d)
                            (String.eqb (DocumentRecord.id d) (DocumentRecord.id first)))
                (first :: rest)).
Proof.
  intros Hel Hdocs Hsome.
  assert (Hactive : activeDocumentId (state (refreshArchiveList app))
                    = Some (DocumentRecord.id first)).
  { rewrite refreshArchiveList_activeDocumentId, Hdocs, Hsome.
    destruct (archiveListEl app); [reflexivity | congruence]. }
  assert (Hcards : archiveListEl (refreshArchiveList app)
            = Some (map (fun d => ArchiveCard (DocumentRecord.id d) false) (first :: rest))).
  { unfold refreshArchiveList. destruct (archiveListEl app); [|congruence].
    rewrite Hdocs, Hsome. cbn [length Nat.eqb negb].
    rewrite refreshDocumentView_list. cbn [archiveListEl]. f_equal.
    apply map_ext_in. intros d Hd. f_equal.
    now apply (array_some_false _ _ Hsome). }
  split; [exact Hactive|]. split; [exact Hcards|].
  set (app1 := refreshArchiveList app) in *.
  assert (Hdocs1 : filteredDocuments (state app1) = first :: rest).
  { unfold app1. rewrite refreshArchiveList_state, filteredDocuments_setActive. exact Hdocs. }
  unfold refreshArchiveList. rewrite Hcards, Hdocs1, Hactive. cbn [length Nat.eqb].
  cbn [JsArray.some isActive]. rewrite String.eqb_refl. cbn [orb negb archiveListEl].
  reflexivity.
Qed.

(** X13: after a refresh that lists at least one document, the active
    document is one of the listed documents. *)
Theorem active_document_is_listed (app : InfiniteLibraryApp) :
  archiveListEl app <> None ->
  filteredDocuments (state app) <> [] ->
  exists doc,
    In doc (filteredDocuments (state (refreshArchiveList app))) /\
    activeDocumentId (state (refreshArchiveList app)) = Some (DocumentRecord.id doc).
Proof.
  intros Hel Hne.
  destruct (filteredDocuments (state app)) as [|first rest] eqn:Hdocs; [congruence|].
  pose proof (refreshArchiveList_active_visible app first rest Hel Hdocs) as Hv.
  apply some_isActive in Hv. destruct Hv as [d [Hd Ha]].
  exists d. split; [|exact Ha].
  rewrite refreshArchiveList_state, filteredDocuments_setActive, Hdocs. exact Hd.
Qed.

(** X14: a click on the card of a listed document makes that document the
    active one, marks its card and no card of another id, and shows it in
    the detail pane. *)
Theorem card_click_selects (doc : DocumentRecord.t) (app : InfiniteLibraryApp) :
  archiveListEl app <> None ->
  In doc (filteredDocuments (state app)) ->
  let app' := onCardClick doc app in
  activeDocumentId (state app') = Some (DocumentRecord.id doc) /\
  archiveListEl app'
    = Some (map (fun d => ArchiveCard (DocumentRecord.id d)
                            (String.eqb (DocumentRecord.id d) (DocumentRecord.id doc)))
                (filteredDocuments (state app))) /\
  (detailContainerEl app <> None ->
   detailContainerEl app' = Some (DocumentDetail (DocumentRecord.id doc))).
Proof.
  intros Hel Hdoc. cbv zeta. unfold onCardClick.
  set (app0 := withState app (setActiveDocumentId (state app) (Some (DocumentRecord.id doc)))).
  assert (Hdocs0 : filteredDocuments (state app0) = filteredDocuments (state app))
    by reflexivity.
  assert (Hsome : JsArray.some (isActive (Some (DocumentRecord.id doc)))
                               (filteredDocuments (state app)) = true).
  { apply array_some_true. exists doc. split; [exact Hdoc|]. apply String.eqb_refl. }
  assert (Hne : (length (filteredDocuments (state app)) =? 0)%nat = false).
  { destruct (filteredDocuments (state app)); [destruct Hdoc | reflexivity]. }
  assert (Happ1 : refreshArchiveList app0 =
            {| state := state app0;
               archiveListEl :=
                 Some (map (fun d => ArchiveCard (DocumentRecord.id d)
                                       (String.eqb (DocumentRecord.id d) (DocumentRecord.id doc)))
                           (filteredDocuments (state app)));
               detailContainerEl := detailContainerEl app |}).
  { unfold refreshArchiveList, app0, withState. cbn [archiveListEl state].
    destruct (archiveListEl app); [|congruence].
    rewrite !filteredDocuments_setActive, Hne.
    cbn [activeDocumentId setActiveDocumentId].
    change (isActive (Some (DocumentRecord.id doc)))
      with (fun d => String.eqb (DocumentRecord.id d) (DocumentRecord.id doc)) in Hsome |- *.
    rewrite Hsome. reflexivity. }
  rewrite Happ1. rewrite refreshDocumentView_state, refreshDocumentView_list.
  split; [reflexivity|]. split; [reflexivity|].
  intros Hdetail. unfold refreshDocumentView. cbn [detailContainerEl state app0 withState].
  destruct (detailContainerEl app); [|congruence].
  cbn [detailContainerEl activeDocumentId setActiveDocumentId documents].
  destruct (JsArray.find (isActive (Some (DocumentRecord.id doc))) (documents (state app)))
    as [found|] eqn:Hfind.
  - apply array_find_some in Hfind. destruct Hfind as [_ Hid].
    apply String.eqb_eq in Hid. now rewrite Hid.
  - exfalso. rewrite array_find_none in Hfind.
    unfold filteredDocuments in Hdoc. cbv zeta in Hdoc.
    apply array_sort_In, array_filter_In in Hdoc. destruct Hdoc as [Hdoc _].
    specialize (Hfind doc Hdoc). cbn [isActive] in Hfind.
    now rewrite String.eqb_refl in Hfind.
Qed.

(** X15: at start-up the active document is the first document of the
    collection, whatever its age, although the list is ordered by recency. *)
Theorem startup_active_is_first_of_collection
        (app : InfiniteLibraryApp) (first : DocumentRecord.t) (rest : list DocumentRecord.t) :
  state app = initialState (first :: rest) ->
  archiveListEl app <> None ->
  activeDocumentId (state (refreshArchiveList app)) = Some (DocumentRecord.id first) /\
  filteredDocuments (state app) = JsArray.sort byRecency (first :: rest).
Proof.
  intros Hst Hel.
  assert (Hdocs : filteredDocuments (state app) = JsArray.sort byRecency (first :: rest)).
  { rewrite Hst. apply (filteredDocuments_unfiltered (initialState (first :: rest))). }
  split; [|exact Hdocs].
  rewrite refreshArchiveList_activeDocumentId.
  destruct (archiveListEl app); [|congruence].
  assert (Hsome : JsArray.some (isActive (activeDocumentId (state app)))
                               (filteredDocuments (state app)) = true).
  { apply array_some_true. exists first. split.
    - rewrite Hdocs. apply array_sort_In. now left.
    - rewrite Hst. apply String.eqb_refl. }
  rewrite Hsome. destruct (filteredDocuments (state app)); now rewrite Hst.
Qed.

(** X16: [refreshDocumentView] shows the first document of the collection
    that has the active id, and the empty pane when the active id is null or
    dangling; it changes neither the view state nor the list. *)
Theorem refreshDocumentView_resolves (app : InfiniteLibraryApp) :
  detailContainerEl app <> None ->
  state (refreshDocumentView app) = state app /\
  archiveListEl (refreshDocumentView app) = archiveListEl app /\
  (forall doc,
     In doc (documents (state app)) ->
     activeDocumentId (state app) = Some (DocumentRecord.id doc) ->
     detailContainerEl (refreshDocumentView app)
       = Some (DocumentDetail (DocumentRecord.id doc))) /\
  ((forall doc, In doc (documents (state app)) ->
                activeDocumentId (state app) <> Some (DocumentRecord.id doc)) ->
   detailContainerEl (refreshDocumentView app) = Some EmptyDetail).
Proof.
  intros Hdetail.
  split; [apply refreshDocumentView_state|]. split; [apply refreshDocumentView_list|].
  unfold refreshDocumentView. destruct (detailContainerEl app); [|congruence].
  cbn [detailContainerEl]. split.
  - intros doc Hdoc Hactive.
    destruct (JsArray.find _ _) as [found|] eqn:Hfind.
    + apply array_find_some in Hfind. destruct Hfind as [_ Hid].
      rewrite Hactive in Hid. cbn [isActive] in Hid. apply String.eqb_eq in Hid.
      now rewrite Hid.
    + exfalso. rewrite array_find_none in Hfind. specialize (Hfind doc Hdoc).
      rewrite Hactive in Hfind. cbn [isActive] in Hfind.
      now rewrite String.eqb_refl in Hfind.
  - intros Hnone.
    destruct (JsArray.find _ _) as [found|] eqn:Hfind; [|reflexivity].
    exfalso. apply array_find_some in Hfind. destruct Hfind as [Hin Hid].
    apply (Hnone found Hin). unfold isActive in Hid.
    destruct (activeDocumentId (state app)); [|discriminate].
    apply String.eqb_eq in Hid. now subst.
Qed.

(** ** [formatRelativeTime] *)

(** X17: a timestamp at least two whole days back is given as its whole
    number of days, which is at least 2; one between one and two days back
    is "yesterday": the text "1 days ago" is never produced. *)
Theorem formatRelativeTime_days (now timestamp : Z) :
  (2 * day_ms <= now - timestamp ->
   formatRelativeTime now timestamp = pretty ((now - timestamp) / day_ms) ++ " days ago" /\
   2 <= (now - timestamp) / day_ms) /\
  (day_ms <= now - timestamp < 2 * day_ms ->
   formatRelativeTime now timestamp = "yesterday").
Proof.
  unfold formatRelativeTime, day_ms. cbv zeta.
  change (1000 * 60 * 60 * 24) with 86400000.
  set (delta := now - timestamp). split.
  - intros H.
    assert (Hd : 2 <= delta / 86400000) by (apply Z.div_le_lower_bound; lia).
    split; [|exact Hd].
    rewrite Z.gtb_ltb. destruct (Z.ltb_spec 1 (delta / 86400000)); [reflexivity | lia].
  - intros [H1 H2].
    assert (Hd : delta / 86400000 = 1).
    { assert (1 <= delta / 86400000) by (apply Z.div_le_lower_bound; lia).
      assert (delta / 86400000 < 2) by (apply Z.div_lt_upper_bound; lia). lia. }
    rewrite Hd. reflexivity.
Qed.

(** X18: within the last day a timestamp is given in whole hours, from 1 to
    23, once an hour has passed, and in whole minutes before that; the
    minutes never go below 1, so that a timestamp less than two minutes
    back, or in the future, reads "1 minutes ago". *)
Theorem formatRelativeTime_within_a_day (now timestamp : Z) :
  (1000 * 60 * 60 <= now - timestamp < day_ms ->
   formatRelativeTime now timestamp
     = pretty ((now - timestamp) / (1000 * 60 * 60)) ++ " hours ago" /\
   1 <= (now - timestamp) / (1000 * 60 * 60) <= 23) /\
  (now - timestamp < 1000 * 60 * 60 ->
   formatRelativeTime now timestamp
     = pretty (Z.max 1 ((now - timestamp) / (1000 * 60))) ++ " minutes ago" /\
   1 <= Z.max 1 ((now - timestamp) / (1000 * 60)) <= 59) /\
  (now - timestamp < 2 * (1000 * 60) ->
   formatRelativeTime now timestamp = "1 minutes ago").
Proof.
  unfold formatRelativeTime, day_ms. cbv zeta.
  change (1000 * 60 * 60 * 24) with 86400000.
  change (1000 * 60 * 60) with 3600000. change (1000 * 60) with 60000.
  set (delta := now - timestamp).
  assert (Hdays : delta < 86400000 ->
            (delta / 86400000 >? 1) = false /\ (delta / 86400000 =? 1) = false).
  { intros H. assert (delta / 86400000 < 1) by (apply Z.div_lt_upper_bound; lia).
    rewrite Z.gtb_ltb. split; [apply Z.ltb_ge | apply Z.eqb_neq]; lia. }
  assert (Hminutes : delta < 3600000 ->
            (delta / 3600000 >=? 1) = false /\ delta / 60000 < 60).
  { intros H. assert (delta / 3600000 < 1) by (apply Z.div_lt_upper_bound; lia).
    split; [rewrite Z.geb_leb; apply Z.leb_gt; lia | apply Z.div_lt_upper_bound; lia]. }
  split; [|split].
  - intros [H1 H2]. destruct (Hdays H2) as [-> ->].
    assert (1 <= delta / 3600000) by (apply Z.div_le_lower_bound; lia).
    assert (delta / 3600000 < 24) by (apply Z.div_lt_upper_bound; lia).
    split; [|lia]. rewrite Z.geb_leb.
    destruct (Z.leb_spec 1 (delta / 3600000)); [reflexivity | lia].
  - intros H. destruct (Hdays ltac:(lia)) as [-> ->].
    destruct (Hminutes H) as [-> Hm]. split; [reflexivity | lia].
  - intros H. destruct (Hdays ltac:(lia)) as [-> ->].
    destruct (Hminutes ltac:(lia)) as [-> _].
    assert (delta / 60000 < 2) by (apply Z.div_lt_upper_bound; lia).
    replace (Z.max 1 (delta / 60000)) with 1 by lia. reflexivity.
Qed.

(** ** The detail pane *)

Lemma array_find_split {A} (p : A -> bool) (l : list A) (x : A) :
  JsArray.find p l = Some x ->
  exists before rest,
    l = (before ++ x :: rest)%list /\ p x = true /\
    forall y, In y before -> p y = false.
Proof.
  induction l as [|y l IH]; simpl; [discriminate|].
  destruct (p y) eqn:Hy.
  - intros [= <-]. exists [], l. repeat split; auto. intros z [].
  - intros H. destruct (IH H) as [before [rest [-> [Hp Hb]]]].
    exists (y :: before), rest. repeat split; auto.
    intros z [<-|Hz]; auto.
Qed.

Lemma referenceLabels_length (st : LibraryViewState) (active : DocumentRecord.t) :
  (length (referenceLabels st active) <= length (DocumentRecord.references active))%nat.
Proof.
  unfold referenceLabels. etransitivity; [apply array_filter_length|].
  now rewrite length_map.
Qed.

(** X19: when no document of the collection has an empty title, the detail
    pane gives one label for each reference of the active document, in
    order: the title of the first document with the referenced id, or
    "Unknown fragment" when the reference is dangling.  In any case there
    are never more labels than references. *)
Theorem referenceLabels_spec (st : LibraryViewState) (active : DocumentRecord.t) :
  (length (referenceLabels st active) <= length (DocumentRecord.references active))%nat /\
  ((forall doc, In doc (documents st) -> DocumentRecord.title doc <> EmptyString) ->
   Forall2
     (fun refId label =>
        (forall doc, In doc (documents st) -> DocumentRecord.id doc <> refId) /\
        label = "Unknown fragment"
        \/
        exists before doc rest,
          documents st = (before ++ doc :: rest)%list /\
          DocumentRecord.id doc = refId /\
          (forall d, In d before -> DocumentRecord.id d <> refId) /\
          label = DocumentRecord.title doc)
     (DocumentRecord.references active) (referenceLabels st active)).
Proof.
  split; [apply referenceLabels_length|].
  intros Htitles. unfold referenceLabels.
  induction (DocumentRecord.references active) as [|refId refs IH]; cbn [map JsArray.filter].
  - constructor.
  - destruct (JsArray.find (fun doc => String.eqb (DocumentRecord.id doc) refId) (documents st))
      as [found|] eqn:Hfind.
    + destruct (array_find_split _ _ _ Hfind) as [before [rest [Hsplit [Hp Hbefore]]]].
      assert (Hin : In found (documents st))
        by (rewrite Hsplit; apply in_or_app; right; now left).
      unfold truthy at 1.
      destruct (DocumentRecord.title found) eqn:Ht; [now elim (Htitles found Hin)|].
      cbn [JsString.is_empty negb]. constructor; [|exact IH].
      right. exists before, found, rest. rewrite Ht. apply String.eqb_eq in Hp.
      repeat split; auto.
      intros d Hd Hid. specialize (Hbefore d Hd). apply String.eqb_neq in Hbefore. auto.
    + cbn [truthy JsString.is_empty negb]. constructor; [|exact IH].
      left. split; [|reflexivity]. intros doc Hdoc Hid.
      rewrite array_find_none in Hfind. specialize (Hfind doc Hdoc).
      apply String.eqb_neq in Hfind. auto.
Qed.

(** ** The settings store: compositions *)

Section StoreCompositions.

Variable JSON_parse : string -> completion json.
Variable JSON_stringify : json -> string.
Variable body : Subscriber -> T -> completion unit.

Local Abbreviation read := (LocalStorageStore.read JSON_parse).
Local Abbreviation write := (LocalStorageStore.write JSON_stringify body).

(** X20: the last write wins as a whole.  After [write a] and then
    [write b], [read] returns [b] merged over the default: a property that
    only [a] had is gone. *)
Theorem last_write_wins (store : LocalStorageStore.t) (a b : T) (w : World) :
  setItem_denied (localStorage w) (LocalStorageStore.key store)
                 (JSON_stringify (JObject a)) = None ->
  setItem_denied (localStorage w) (LocalStorageStore.key store)
                 (JSON_stringify (JObject b)) = None ->
  getItem_denied (localStorage w) = None ->
  JSON_parse (JSON_stringify (JObject b)) = Normal (JObject b) ->
  JsString.is_empty (JSON_stringify (JObject b)) = false ->
  exists (r : LocalStorageStore.Returned) (w' : World),
    read store (snd (write store b (snd (write store a w)))) = (Normal r, w') /\
    forall k : string,
      LocalStorageStore.value_of store r !! k =
      match b !! k with
      | Some x => Some x
      | None => LocalStorageStore.defaultValue store !! k
      end.
Proof.
  intros Hseta Hsetb Hget Hround Hnonempty.
  rewrite (write_unfold JSON_stringify body store a w), Hseta. cbn [snd].
  rewrite write_unfold. cbn [after_calls after_store localStorage setItem_denied].
  rewrite Hsetb. cbn [snd].
  rewrite read_unfold. cbn [after_calls after_store localStorage getItem_denied items].
  rewrite Hget, lookup_insert_eq, Hnonempty, Hround.
  eexists _, _. split; [reflexivity|]. cbn [LocalStorageStore.value_of].
  intros k. apply (objectSpread_lookup _ (JObject b)).
Qed.

Lemma filter_out_absent (f : Subscriber) (subs : list Subscriber) :
  ~ In f subs -> JsArray.filter (fun fn => negb (Nat.eqb fn f)) subs = subs.
Proof.
  induction subs as [|s subs IH]; simpl; [reflexivity|]. intros Hnot.
  destruct (Nat.eqb_spec s f) as [->|_]; [exfalso; apply Hnot; now left|].
  cbn [negb]. f_equal. apply IH. intros H. apply Hnot. now right.
Qed.

Lemma filter_out_present (f : Subscriber) (subs : list Subscriber) :
  In f subs ->
  (length (JsArray.filter (fun fn => negb (Nat.eqb fn f)) subs) < length subs)%nat.
Proof.
  induction subs as [|s subs IH]; [intros []|]. intros Hin. simpl.
  destruct (Nat.eqb_spec s f) as [->|Hne]; cbn [negb].
  - pose proof (array_filter_length (fun fn => negb (Nat.eqb fn f)) subs). simpl. lia.
  - destruct Hin as [->|Hin]; [congruence|]. specialize (IH Hin). simpl. lia.
Qed.

Lemma filter_out_snoc (f : Subscriber) (subs : list Subscriber) :
  JsArray.filter (fun fn => negb (Nat.eqb fn f)) (subs ++ [f])%list
  = JsArray.filter (fun fn => negb (Nat.eqb fn f)) subs.
Proof.
  induction subs as [|s subs IH]; simpl.
  - now rewrite Nat.eqb_refl.
  - now rewrite IH.
Qed.

(** X21: subscribing a callback that is not registered and then calling the
    returned handle gives the store back as it was; if the callback was
    registered before, the handle removes that earlier registration too, so
    the store ends with fewer subscribers than it started with. *)
Theorem subscribe_then_unsubscribe (store : LocalStorageStore.t) (f : Subscriber) :
  let after :=
    LocalStorageStore.unsubscribe (snd (LocalStorageStore.subscribe store f))
                                  (fst (LocalStorageStore.subscribe store f)) in
  (~ In f (LocalStorageStore.subscribers store) -> after = store) /\
  (In f (LocalStorageStore.subscribers store) ->
   (length (LocalStorageStore.subscribers after)
    < length (LocalStorageStore.subscribers store))%nat).
Proof.
  cbv zeta. unfold LocalStorageStore.unsubscribe, LocalStorageStore.subscribe.
  cbn [fst snd LocalStorageStore.subscribers LocalStorageStore.key
       LocalStorageStore.defaultValue LocalStorageStore.captured].
  rewrite filter_out_snoc. split.
  - intros Hnot. rewrite (filter_out_absent f _ Hnot). now destruct store.
  - apply filter_out_present.
Qed.

(** X22: a callback subscribed twice is called twice by a write, after the
    subscribers that were there before, when none of them throws; and one
    call of either handle removes both registrations. *)
Theorem double_subscription (store : LocalStorageStore.t) (f : Subscriber) :
  let once := LocalStorageStore.subscribe store f in
  let twice := LocalStorageStore.subscribe (fst once) f in
  (forall (v : T) (w : World),
     setItem_denied (localStorage w) (LocalStorageStore.key store)
                    (JSON_stringify (JObject v)) = None ->
     Forall (fun s => body s v = Normal tt) (LocalStorageStore.subscribers store) ->
     body f v = Normal tt ->
     invocations (snd (write (fst twice) v w)) =
       (invocations w
        ++ map (fun s => (s, v)) (LocalStorageStore.subscribers store)
        ++ [(f, v); (f, v)])%list) /\
  ~ In f (LocalStorageStore.subscribers (LocalStorageStore.unsubscribe (snd once) (fst twice))) /\
  ~ In f (LocalStorageStore.subscribers (LocalStorageStore.unsubscribe (snd twice) (fst twice))).
Proof.
  cbv zeta. split; [|split; apply (unsubscribe_not_In (LocalStorageStore.mkUnsubscribe f))].
  intros v w Hset Hall Hf. rewrite write_unfold.
  cbn [LocalStorageStore.subscribe fst LocalStorageStore.key LocalStorageStore.subscribers].
  rewrite Hset. cbn [snd after_calls invocations after_store].
  assert (Hall' : Forall (fun s => body s v = Normal tt)
                         ((LocalStorageStore.subscribers store ++ [f]) ++ [f])%list).
  { apply Forall_app. split; [apply Forall_app; split; [exact Hall|]|]; now constructor. }
  destruct (reached_all body v _ Hall') as [-> _].
  rewrite !map_app, <- !app_assoc. reflexivity.
Qed.

(** X23: unsubscribing is independent of order: two handles called in
    either order leave the same store. *)
Theorem unsubscribe_commutes (h1 h2 : LocalStorageStore.Unsubscribe)
        (store : LocalStorageStore.t) :
  LocalStorageStore.unsubscribe h1 (LocalStorageStore.unsubscribe h2 store)
  = LocalStorageStore.unsubscribe h2 (LocalStorageStore.unsubscribe h1 store).
Proof.
  unfold LocalStorageStore.unsubscribe.
  cbn [LocalStorageStore.subscribers LocalStorageStore.key LocalStorageStore.defaultValue].
  f_equal. rewrite !array_filter_filter. apply array_filter_ext. intros s _.
  apply andb_comm.
Qed.

(** ** The settings form *)

(** X24: after an edit of the model slug and an edit of the API key, on a
    storage that takes the two writes, the settings in memory hold both
    values and every other property as before, and the settings opened anew
    from the storage are these settings merged over the default. *)
Theorem settings_edits_persist (s : SettingsSession) (slug key : string) (w : World) :
  let edited := <["modelSlug" := JString slug]> (settings s) in
  let final := <["apiKey" := JString key]> edited in
  setItem_denied (localStorage w) (LocalStorageStore.key (store s))
                 (JSON_stringify (JObject edited)) = None ->
  setItem_denied (localStorage w) (LocalStorageStore.key (store s))
                 (JSON_stringify (JObject final)) = None ->
  getItem_denied (localStorage w) = None ->
  JSON_parse (JSON_stringify (JObject final)) = Normal (JObject final) ->
  JsString.is_empty (JSON_stringify (JObject final)) = false ->
  let '(_, s1, w1) := onModelSlugInput JSON_stringify body slug s w in
  let '(_, s2, w2) := onApiKeyInput JSON_stringify body key s1 w1 in
  settings s2 !! "modelSlug" = Some (JString slug) /\
  settings s2 !! "apiKey" = Some (JString key) /\
  (forall k, k <> "modelSlug" -> k <> "apiKey" -> settings s2 !! k = settings s !! k) /\
  fst (openSettings JSON_parse (store s) w2)
    = Normal {| store := store s;
                settings := objectSpread (LocalStorageStore.defaultValue (store s))
                                         (JObject (settings s2)) |}.
Proof.
  cbv zeta. intros Hset1 Hset2 Hget Hround Hnonempty.
  unfold onModelSlugInput, onApiKeyInput, onFieldInput.
  cbv zeta. cbn [store settings].
  rewrite (write_unfold JSON_stringify body (store s)), Hset1.
  rewrite write_unfold.
  cbn [after_calls after_store localStorage setItem_denied store settings].
  rewrite Hset2. cbn [settings].
  split; [now rewrite lookup_insert_ne, lookup_insert_eq|].
  split; [apply lookup_insert_eq|].
  split; [intros k H1 H2; now rewrite !lookup_insert_ne by congruence|].
  unfold openSettings, bind. rewrite read_unfold.
  cbn [after_calls after_store localStorage getItem_denied items].
  rewrite Hget, lookup_insert_eq, Hnonempty, Hround. reflexivity.
Qed.

(** X25: when the storage refuses the write, the listener raises, the
    settings in memory hold the edit all the same, and the storage and the
    rest of the world are as before: the edit is lost at the next start. *)
Theorem refused_edit_stays_in_memory
        (field value : string) (s : SettingsSession) (w : World) (e : exn) :
  setItem_denied (localStorage w) (LocalStorageStore.key (store s))
    (JSON_stringify (JObject (<[field := JString value]> (settings s)))) = Some e ->
  let '(c, s', w') := onFieldInput JSON_stringify body field value s w in
  c = Throw e /\
  settings s' = <[field := JString value]> (settings s) /\
  store s' = store s /\
  w' = w.
Proof.
  intros Hset. unfold onFieldInput. cbv zeta.
  rewrite write_unfold, Hset. easy.
Qed.

End StoreCompositions.

(** ** The further statements at concrete inputs *)

Lemma reselect_leaves_cards_unmarked_witness :
  archiveListEl choosingApp <> None /\
  filteredDocuments (state choosingApp) = [d_silted_reckoning clock; d_tidal_vow clock] /\
  JsArray.some (isActive (activeDocumentId (state choosingApp)))
               [d_silted_reckoning clock; d_tidal_vow clock] = false /\
  activeDocumentId (state (refreshArchiveList choosingApp)) = Some "d_silted_reckoning" /\
  archiveListEl (refreshArchiveList choosingApp)
    = Some [ArchiveCard "d_silted_reckoning" false; ArchiveCard "d_tidal_vow" false].
Proof.
  assert (H1 : archiveListEl choosingApp <> None) by discriminate.
  assert (H2 : filteredDocuments (state choosingApp)
               = [d_silted_reckoning clock; d_tidal_vow clock])
    by (vm_compute; reflexivity).
  assert (H3 : JsArray.some (isActive (activeDocumentId (state choosingApp)))
                 [d_silted_reckoning clock; d_tidal_vow clock] = false)
    by (vm_compute; reflexivity).
  destruct (reselect_leaves_cards_unmarked choosingApp _ _ H1 H2 H3) as [Ha [Hc _]].
  repeat (split; [assumption|]). exact Hc.
Defined.

Lemma active_document_is_listed_witness :
  archiveListEl choosingApp <> None /\
  filteredDocuments (state choosingApp) <> [] /\
  exists doc,
    In doc (filteredDocuments (state (refreshArchiveList choosingApp))) /\
    activeDocumentId (state (refreshArchiveList choosingApp))
      = Some (DocumentRecord.id doc).
Proof.
  assert (H1 : archiveListEl choosingApp <> None) by discriminate.
  assert (H2 : filteredDocuments (state choosingApp) <> [])
    by (vm_compute; discriminate).
  split; [exact H1|]. split; [exact H2|].
  exact (active_document_is_listed choosingApp H1 H2).
Defined.

Lemma card_click_selects_witness :
  archiveListEl mountedApp <> None /\
  In (d_tidal_vow clock) (filteredDocuments (state mountedApp)) /\
  activeDocumentId (state (onCardClick (d_tidal_vow clock) mountedApp))
    = Some "d_tidal_vow".
Proof.
  assert (H1 : archiveListEl mountedApp <> None) by discriminate.
  assert (H2 : In (d_tidal_vow clock) (filteredDocuments (state mountedApp)))
    by (vm_compute; tauto).
  split; [exact H1|]. split; [exact H2|].
  apply (card_click_selects (d_tidal_vow clock) mountedApp H1 H2).
Defined.

Lemma startup_active_is_first_of_collection_witness :
  state mountedApp
    = initialState (d_origin_sky clock
                    :: [d_aurora_accord clock; d_tidal_vow clock;
                        d_silted_reckoning clock; d_ember_heresy clock]) /\
  archiveListEl mountedApp <> None /\
  activeDocumentId (state (refreshArchiveList mountedApp)) = Some "d_origin_sky".
Proof.
  assert (H1 : archiveListEl mountedApp <> None) by discriminate.
  split; [reflexivity|]. split; [exact H1|].
  apply (startup_active_is_first_of_collection mountedApp (d_origin_sky clock)
           [d_aurora_accord clock; d_tidal_vow clock;
            d_silted_reckoning clock; d_ember_heresy clock] eq_refl H1).
Defined.

Lemma refreshDocumentView_resolves_witness :
  detailContainerEl mountedApp <> None /\
  detailContainerEl (refreshDocumentView mountedApp)
    = Some (DocumentDetail "d_origin_sky").
Proof.
  assert (H1 : detailContainerEl mountedApp <> None) by discriminate.
  split; [exact H1|].
  destruct (refreshDocumentView_resolves mountedApp H1) as [_ [_ [Hshow _]]].
  apply (Hshow (d_origin_sky clock)); [now left | reflexivity].
Defined.

Lemma last_write_wins_witness :
  setItem_denied (localStorage (worldOf (roomyStorage ∅)))
                 (LocalStorageStore.key settingsStore)
                 (JSON.stringify (JObject someSettings)) = None /\
  setItem_denied (localStorage (worldOf (roomyStorage ∅)))
                 (LocalStorageStore.key settingsStore)
                 (JSON.stringify (JObject settingsDefault)) = None /\
  getItem_denied (localStorage (worldOf (roomyStorage ∅))) = None /\
  JSON.parse (JSON.stringify (JObject settingsDefault)) = Normal (JObject settingsDefault) /\
  JsString.is_empty (JSON.stringify (JObject settingsDefault)) = false /\
  exists (r : LocalStorageStore.Returned) (w' : World),
    LocalStorageStore.read JSON.parse settingsStore
      (snd (LocalStorageStore.write JSON.stringify quiet settingsStore settingsDefault
              (snd (LocalStorageStore.write JSON.stringify quiet settingsStore someSettings
                      (worldOf (roomyStorage ∅))))))
    = (Normal r, w') /\
    LocalStorageStore.value_of settingsStore r !! "apiKey" = Some (JString "").
Proof.
  assert (H3 : JSON.parse (JSON.stringify (JObject settingsDefault))
               = Normal (JObject settingsDefault)) by (vm_compute; reflexivity).
  assert (H4 : JsString.is_empty (JSON.stringify (JObject settingsDefault)) = false)
    by (vm_compute; reflexivity).
  repeat (split; [first [reflexivity | assumption]|]).
  destruct (last_write_wins JSON.parse JSON.stringify quiet settingsStore someSettings
              settingsDefault (worldOf (roomyStorage ∅)) eq_refl eq_refl eq_refl H3 H4)
    as [r [w' [Hread Hlookup]]].
  exists r, w'. split; [exact Hread|]. rewrite Hlookup. reflexivity.
Defined.

Lemma settings_edits_persist_witness :
  setItem_denied (localStorage (worldOf (roomyStorage ∅)))
    (LocalStorageStore.key (store defaultSession))
    (JSON.stringify (JObject (<["modelSlug" := JString "m"]> (settings defaultSession))))
  = None /\
  setItem_denied (localStorage (worldOf (roomyStorage ∅)))
    (LocalStorageStore.key (store defaultSession))
    (JSON.stringify
       (JObject (<["apiKey" := JString "k"]>
                   (<["modelSlug" := JString "m"]> (settings defaultSession)))))
  = None /\
  getItem_denied (localStorage (worldOf (roomyStorage ∅))) = None /\
  JSON.parse
    (JSON.stringify
       (JObject (<["apiKey" := JString "k"]>
                   (<["modelSlug" := JString "m"]> (settings defaultSession)))))
  = Normal (JObject (<["apiKey" := JString "k"]>
                       (<["modelSlug" := JString "m"]> (settings defaultSession)))) /\
  JsString.is_empty
    (JSON.stringify
       (JObject (<["apiKey" := JString "k"]>
                   (<["modelSlug" := JString "m"]> (settings defaultSession)))))
  = false /\
  let '(_, s1, w1) :=
    onModelSlugInput JSON.stringify quiet "m" defaultSession (worldOf (roomyStorage ∅)) in
  let '(_, s2, w2) := onApiKeyInput JSON.stringify quiet "k" s1 w1 in
  settings s2 !! "modelSlug" = Some (JString "m") /\
  settings s2 !! "apiKey" = Some (JString "k") /\
  (forall k, k <> "modelSlug" -> k <> "apiKey" ->
             settings s2 !! k = settings defaultSession !! k) /\
  fst (openSettings JSON.parse (store defaultSession) w2)
    = Normal {| store := store defaultSession;
                settings :=
                  objectSpread (LocalStorageStore.defaultValue (store defaultSession))
                               (JObject (settings s2)) |}.
Proof.
  assert (H4 : JSON.parse
                 (JSON.stringify
                    (JObject (<["apiKey" := JString "k"]>
                                (<["modelSlug" := JString "m"]> (settings defaultSession)))))
               = Normal (JObject (<["apiKey" := JString "k"]>
                                    (<["modelSlug" := JString "m"]>
                                       (settings defaultSession)))))
    by (vm_compute; reflexivity).
  assert (H5 : JsString.is_empty
                 (JSON.stringify
                    (JObject (<["apiKey" := JString "k"]>
                                (<["modelSlug" := JString "m"]> (settings defaultSession)))))
               = false) by (vm_compute; reflexivity).
  split; [reflexivity|]. split; [reflexivity|]. split; [reflexivity|].
  split; [exact H4|]. split; [exact H5|].
  exact (settings_edits_persist JSON.parse JSON.stringify quiet defaultSession "m" "k"
           (worldOf (roomyStorage ∅)) eq_refl eq_refl eq_refl H4 H5).
Defined.

Lemma refused_edit_stays_in_memory_witness :
  setItem_denied (localStorage (worldOf (fullStorage ∅)))
    (LocalStorageStore.key (store defaultSession))
    (JSON.stringify (JObject (<["apiKey" := JString "k"]> (settings defaultSession))))
  = Some QuotaExceededError /\
  let '(c, s', w') :=
    onFieldInput JSON.stringify quiet "apiKey" "k" defaultSession
                 (worldOf (fullStorage ∅)) in
  c = Throw QuotaExceededError /\
  settings s' = <["apiKey" := JString "k"]> (settings defaultSession) /\
  store s' = store defaultSession /\
  w' = worldOf (fullStorage ∅).
Proof.
  split; [reflexivity|].
  exact (refused_edit_stays_in_memory JSON.stringify quiet "apiKey" "k" defaultSession
           (worldOf (fullStorage ∅)) QuotaExceededError eq_refl).
Defined.

(** ** Searching by a fragment *)

Lemma str_app_cons (x : ascii) (a b : string) : String x a ++ b = String x (a ++ b).
Proof. reflexivity. Qed.

Lemma str_app_nil_l (a : string) : EmptyString ++ a = a.
Proof. reflexivity. Qed.

Lemma str_app_assoc (a b c : string) : (a ++ b) ++ c = a ++ (b ++ c).
Proof.
  induction a as [|x a IH]; [reflexivity|]. rewrite !str_app_cons. now f_equal.
Qed.

Lemma str_app_nil_r (a : string) : a ++ EmptyString = a.
Proof.
  induction a as [|x a IH]; [reflexivity|]. rewrite str_app_cons. now f_equal.
Qed.

Lemma toLowerCase_app (a b : string) :
  JsString.toLowerCase (a ++ b) = JsString.toLowerCase a ++ JsString.toLowerCase b.
Proof.
  induction a as [|x a IH]; [reflexivity|].
  rewrite str_app_cons. cbn [JsString.toLowerCase]. rewrite str_app_cons. now f_equal.
Qed.

Lemma Substring_trans (a b c : string) :
  JsString.Substring a b -> JsString.Substring b c -> JsString.Substring a c.
Proof.
  intros [p1 [q1 ->]] [p2 [q2 ->]]. exists (p2 ++ p1), (q1 ++ q2).
  now rewrite !str_app_assoc.
Qed.

(** X26: a search for any fragment of the title, of the text or of the
    author's name of a document, in whatever case and with white space
    around it, lists that document, unless the faction filter or canon
    focus excludes it. *)
Theorem search_finds_by_fragment
        (st : LibraryViewState) (doc : DocumentRecord.t) (fragment : string) :
  In doc (documents st) ->
  (factionFilter st = "all" \/ DocumentRecord.factionTag doc = factionFilter st) ->
  (showCanonOnly st = false \/ (0.7 <= DocumentRecord.canonWeight doc)%Q) ->
  (JsString.Substring (JsString.toLowerCase (JsString.trim fragment))
                      (JsString.toLowerCase (DocumentRecord.title doc)) \/
   JsString.Substring (JsString.toLowerCase (JsString.trim fragment))
                      (JsString.toLowerCase (DocumentRecord.text doc)) \/
   JsString.Substring (JsString.toLowerCase (JsString.trim fragment))
                      (JsString.toLowerCase (authorName st doc))) ->
  In doc (filteredDocuments (setSearchTerm st fragment)).
Proof.
  intros Hdoc Hfaction Hcanon Hfrag.
  unfold filteredDocuments. cbv zeta.
  apply array_sort_In, array_filter_In. split; [exact Hdoc|].
  apply keeps_spec.
  change (factionFilter (setSearchTerm st fragment)) with (factionFilter st).
  change (showCanonOnly (setSearchTerm st fragment)) with (showCanonOnly st).
  change (haystack (setSearchTerm st fragment) doc) with (haystack st doc).
  change (normalizedTerm (setSearchTerm st fragment))
    with (JsString.toLowerCase (JsString.trim fragment)).
  split; [intros Hne; destruct Hfaction; [contradiction | assumption]|].
  split; [intros Hon; destruct Hcanon; [congruence | assumption]|].
  intros _. unfold haystack. cbn [JsString.join]. rewrite !toLowerCase_app.
  destruct Hfrag as [H|[H|H]]; (eapply Substring_trans; [exact H|]).
  - exists EmptyString. eexists. reflexivity.
  - exists (JsString.toLowerCase (DocumentRecord.title doc) ++ JsString.toLowerCase " ").
    eexists. now rewrite !str_app_assoc.
  - exists (JsString.toLowerCase (DocumentRecord.title doc) ++ JsString.toLowerCase " "
            ++ JsString.toLowerCase (DocumentRecord.text doc) ++ JsString.toLowerCase " "),
           EmptyString.
    now rewrite str_app_nil_r, !str_app_assoc.
Qed.

Lemma search_finds_by_fragment_witness :
  In (d_ember_heresy clock) (documents (initialState fixtureDocuments)) /\
  In (d_ember_heresy clock)
     (filteredDocuments (setSearchTerm (initialState fixtureDocuments) "  The SMOKE ")).
Proof.
  assert (H1 : In (d_ember_heresy clock) (documents (initialState fixtureDocuments)))
    by (simpl; tauto).
  split; [exact H1|].
  apply (search_finds_by_fragment (initialState fixtureDocuments) (d_ember_heresy clock)
           "  The SMOKE " H1 (or_introl eq_refl) (or_introl eq_refl)).
  right. left. apply includes_spec. vm_compute. reflexivity.
Defined.

(** ** The listeners of the filters *)

Lemma refreshArchiveList_lists (app : InfiniteLibraryApp) :
  archiveListEl app <> None ->
  exists items,
    archiveListEl (refreshArchiveList app) = Some items /\
    listShows items (filteredDocuments (state app)).
Proof.
  intros Hel. unfold refreshArchiveList. destruct (archiveListEl app); [|congruence].
  destruct (filteredDocuments (state app)) as [|first rest] eqn:Hdocs.
  - cbn [length Nat.eqb]. rewrite refreshDocumentView_list. cbn [archiveListEl].
    now exists [EmptyState].
  - cbn [length Nat.eqb].
    assert (Hshows : listShows
              (map (fun doc => ArchiveCard (DocumentRecord.id doc)
                                 (isActive (activeDocumentId (state app)) doc))
                   (first :: rest))
              (first :: rest)).
    { cbn [listShows]. generalize (first :: rest). intros docs.
      induction docs as [|d docs IH]; simpl; constructor; eauto. }
    destruct (negb _).
    + rewrite refreshDocumentView_list. cbn [archiveListEl]. eauto.
    + cbn [archiveListEl]. eauto.
Qed.

(** X27: each of the three filter listeners sets its own filter, leaves the
    other two and the collections alone, and redraws the list so that it
    shows the output of the filtering engine for the new view state. *)
Theorem filter_listeners_redraw (app : InfiniteLibraryApp) :
  archiveListEl app <> None ->
  (forall checked : bool,
     let app' := onCanonToggle checked app in
     showCanonOnly (state app') = checked /\
     searchTerm (state app') = searchTerm (state app) /\
     factionFilter (state app') = factionFilter (state app) /\
     exists items, archiveListEl app' = Some items /\
                   listShows items (filteredDocuments (state app'))) /\
  (forall value : string,
     let app' := onSearchInput value app in
     searchTerm (state app') = value /\
     showCanonOnly (state app') = showCanonOnly (state app) /\
     factionFilter (state app') = factionFilter (state app) /\
     exists items, archiveListEl app' = Some items /\
                   listShows items (filteredDocuments (state app'))) /\
  (forall value : string,
     let app' := onFactionChange value app in
     factionFilter (state app') = value /\
     showCanonOnly (state app') = showCanonOnly (state app) /\
     searchTerm (state app') = searchTerm (state app) /\
     exists items, archiveListEl app' = Some items /\
                   listShows items (filteredDocuments (state app'))).
Proof.
  intros Hel.
  assert (Hgen : forall st,
            let app' := refreshArchiveList (withState app st) in
            state app' = setActiveDocumentId st (activeDocumentId (state app')) /\
            exists items, archiveListEl app' = Some items /\
                          listShows items (filteredDocuments (state app'))).
  { intros st. cbv zeta. split; [apply (refreshArchiveList_state (withState app st))|].
    destruct (refreshArchiveList_lists (withState app st) Hel) as [items [Hi Hs]].
    exists items. split; [exact Hi|].
    now rewrite refreshArchiveList_state, filteredDocuments_setActive. }
  split; [|split]; intros x; cbv zeta;
    unfold onCanonToggle, onSearchInput, onFactionChange;
    match goal with
    | |- context [refreshArchiveList (withState app ?st)] =>
        destruct (Hgen st) as [Hst Hitems]; rewrite Hst
    end;
    (split; [reflexivity|]); (split; [reflexivity|]); (split; [reflexivity|]);
    rewrite <- Hst; exact Hitems.
Qed.

Lemma filter_listeners_redraw_witness :
  archiveListEl mountedApp <> None /\
  factionFilter (state (onFactionChange "Tidal Covenant" mountedApp)) = "Tidal Covenant".
Proof.
  assert (H1 : archiveListEl mountedApp <> None) by discriminate.
  split; [exact H1|].
  destruct (filter_listeners_redraw mountedApp H1) as [_ [_ H]].
  apply (H "Tidal Covenant").
Defined.

(** ** The metadata line of the detail pane *)

Lemma filterBoolean_truthy (parts : list (option string)) :
  forall p, In p (filterBoolean parts) <-> In (Some p) parts /\ p <> EmptyString.
Proof.
  induction parts as [|[s|] parts IH]; intros p; simpl.
  - tauto.
  - unfold truthy. destruct s as [|c s]; cbn [JsString.is_empty negb].
    + rewrite IH. split; [tauto|]. intros [[H|H] Hp]; [congruence | tauto].
    + simpl. rewrite IH. split.
      * intros [<-|[H Hp]]; split; auto; discriminate.
      * intros [[[= <-]|H] Hp]; auto.
  - rewrite IH. split; [tauto|]. intros [[H|H] Hp]; [discriminate | tauto].
Qed.

(** X28: the metadata line of the detail pane has no empty part; it always
    has the "Filed" part; it has the "By" part when the author resolves; it
    has the faction tag when that is not empty; and it has the "References"
    part when at least one reference gives a label. *)
Theorem detailMetaParts_spec (now : Z) (st : LibraryViewState) (active : DocumentRecord.t) :
  let parts := detailMetaParts now st active in
  (forall p, In p parts -> p <> EmptyString) /\
  In ("Filed " ++ formatRelativeTime now (DocumentRecord.timestamp active)) parts /\
  (forall author, findAuthor st active = Some author ->
                  In ("By " ++ Agent.name author) parts) /\
  (DocumentRecord.factionTag active <> EmptyString ->
   In (DocumentRecord.factionTag active) parts) /\
  (referenceLabels st active <> [] ->
   In ("References: " ++ referencesText st active) parts).
Proof.
  cbv zeta. unfold detailMetaParts. cbv zeta.
  split; [intros p Hp; now apply filterBoolean_truthy in Hp|].
  split; [apply filterBoolean_truthy; split; [simpl; tauto | discriminate]|].
  split.
  { intros author Hauthor. apply filterBoolean_truthy. rewrite Hauthor.
    split; [simpl; tauto | discriminate]. }
  split.
  { intros Htag. apply filterBoolean_truthy. split; [simpl; tauto | exact Htag]. }
  intros Hlabels. apply filterBoolean_truthy. split; [|discriminate].
  assert (Htext : truthy (referencesText st active) = true).
  { unfold referencesText.
    assert (Hall : forall l, In l (referenceLabels st active) -> truthy l = true).
    { intros l Hl. unfold referenceLabels in Hl. now apply array_filter_In in Hl. }
    destruct (referenceLabels st active) as [|l ls]; [congruence|].
    assert (Hl : truthy l = true) by (apply Hall; now left).
    destruct l as [|c l]; [discriminate|]. now destruct ls. }
  rewrite Htext. simpl. tauto.
Qed.
